(** * omg-js client library: codecs, exit queue, exit scheduling, UTXO merging

    A shallow embedding of the parts of the OmiseGO client library that the
    specification talks about, with the properties stated and proved (or
    refuted) against the embedded code.

    - [BN]         arbitrary-precision helpers (bn.js as the code uses it)
    - [ExitQueue]  rootchain.js, [getExitQueue] and its priority decoder
    - [ExitTime]   rootchain.js, [getExitTime]
    - [Handles]    rootchain.js, the memoised [getPaymentExitGame]
    - [Merge]      [mergeUtxosToOutput]
    - [UtxoPos], [Rlp], [Transaction]   the transaction codec *)

From Stdlib Require Import ZArith NArith List String Ascii Bool Lia.
From Stdlib.Strings Require Import Byte.
From Stdlib Require Import DecimalString DecimalN.
From Stdlib Require Import Permutation.
Import ListNotations.

Local Open Scope N_scope.

(** ** Option plumbing shared by the fallible operations *)

Definition obind {A B} (o : option A) (k : A -> option B) : option B :=
  match o with Some a => k a | None => None end.

Notation "x <- e ;; k" := (obind e (fun x => k))
  (at level 61, e at next level, right associativity).

Fixpoint mapM {A B} (f : A -> option B) (l : list A) : option (list B) :=
  match l with
  | [] => Some []
  | x :: xs => y <- f x ;; ys <- mapM f xs ;; Some (y :: ys)
  end.

(** ** bn.js, as far as the code relies on it *)
Module BN.

(** [bn.toString()] : decimal rendering. *)
Definition to_decimal (n : N) : string :=
  NilEmpty.string_of_uint (N.to_uint n).

(** [new BN(str)] / [new BN(str, 10)] : decimal parsing. *)
Definition of_decimal (s : string) : option N :=
  option_map N.of_uint (NilEmpty.uint_of_string s).

(** Binary digits, most significant first; [acc] is the suffix already
    produced. *)
Fixpoint pos_bin (p : positive) (acc : string) : string :=
  match p with
  | xH => String "1" acc
  | xO q => pos_bin q (String "0" acc)
  | xI q => pos_bin q (String "1" acc)
  end.

Definition bin_digits (n : N) : string :=
  match n with
  | N0 => "0"%string
  | Npos p => pos_bin p EmptyString
  end.

Fixpoint zeros (k : nat) : string :=
  match k with
  | O => EmptyString
  | S k' => String "0" (zeros k')
  end.

(** [bn.toString(2, padding)]: the digits, then
    [while (out.length % padding !== 0) out = '0' + out]; the loop adds
    [(padding - length mod padding) mod padding] zeros. *)
Definition to_binary (padding : nat) (n : N) : string :=
  let out := bin_digits n in
  (zeros ((padding - String.length out mod padding) mod padding) ++ out)%string.

Definition bit_of_char (c : ascii) : N :=
  if Ascii.eqb c "1" then 1 else 0.

Fixpoint bin_acc (s : string) (acc : N) : N :=
  match s with
  | EmptyString => acc
  | String c s' => bin_acc s' (2 * acc + bit_of_char c)
  end.

(** [new BN(str, 2)]. *)
Definition of_binary (s : string) : N := bin_acc s 0.

End BN.

(** ** Native numbers

    A JavaScript number is a double. An integer literal stands for the
    nearest double (ties to the even significand), and printing a number
    gives the shortest decimal that reads back as the same double. *)
Module JsNumber.

Definition MAX_SAFE_INTEGER : N := 2 ^ 53 - 1.

Definition to_double (x : N) : N :=
  if x <? 2 ^ 53 then x
  else
    let e := N.log2 x - 52 in
    let q := x / 2 ^ e in
    let r := x mod 2 ^ e in
    let half := 2 ^ (e - 1) in
    let q' := if r <? half then q
              else if half <? r then q + 1
              else if N.even q then q else q + 1 in
    q' * 2 ^ e.

(** Try ever more digits: [unit] is the weight of the last digit kept. *)
Fixpoint shortest_from (steps : nat) (unit : N) (v : N) : N :=
  match steps with
  | O => v
  | S steps' =>
      let lo := (v / unit) * unit in
      let hi := lo + unit in
      let ok_lo := to_double lo =? v in
      let ok_hi := to_double hi =? v in
      if ok_lo && ok_hi then (if v - lo <=? hi - v then lo else hi)
      else if ok_lo then lo
      else if ok_hi then hi
      else shortest_from steps' (unit / 10) v
  end.

(** The integer whose digits [String(v)] shows, for an integer-valued
    double [v] below 10^21. *)
Definition shortest (v : N) : N :=
  let digits := String.length (BN.to_decimal v) in
  shortest_from (digits - 1) (10 ^ N.of_nat (digits - 1)) v.

(** [String(n)] for the integer literal [n]; numbers from 10^21 on print
    with an exponent and are left out. *)
Definition toString (n : N) : option string :=
  let v := to_double n in
  if v <? 10 ^ 21 then Some (BN.to_decimal (shortest v)) else None.

(** [Number(str)] of a decimal string is finite when the double it rounds
    to is below 2^1024; from there on it is [Infinity]. *)
Definition is_finite (n : N) : bool := to_double n <? 2 ^ 1024.

End JsNumber.

(** ** rootchain.js: the exit queue *)
Module ExitQueue.

Record ExitEntry := mkExitEntry {
  priority : string;
  exitableAt : string;
  exitId : string
}.

(** The body of the [map] callback in [getExitQueue]. An entry of the raw
    heap list is the uint256 the contract call delivers. *)
Definition decodePriority (_priority : N) : option ExitEntry :=
  let priority := BN.to_decimal _priority in
  asBN <- BN.of_decimal priority ;;
  let binary := BN.to_binary 256 asBN in
  let exitableAtBinary := substring 0 42 binary in
  let exitIdBinary := substring 96 160 binary in
  let exitableAt := BN.of_binary exitableAtBinary in
  let exitId := BN.of_binary exitIdBinary in
  Some {| priority := priority;
          exitableAt := BN.to_decimal exitableAt;
          exitId := BN.to_decimal exitId |}.

(** [getExitQueue] after the contract call: [rawExitQueue] is what
    [heapList()] returned ([None] for a null/undefined answer). *)
Definition getExitQueue (rawExitQueue : option (list N)) : option (list ExitEntry) :=
  match rawExitQueue with
  | Some raw =>
      if negb (Nat.eqb (List.length raw) 0) then
        let exitQueuePriorities := skipn 1 raw in
        mapM decodePriority exitQueuePriorities
      else Some []
  | None => Some []
  end.

(** What [decodePriority] returns for the entry [p]: the decimal renderings
    of the number read from the first 42 digits and of the one read from
    digits 96 to 255 of the 256-digit rendering. *)
Definition entry_of (p : N) : ExitEntry :=
  let binary := BN.to_binary 256 p in
  mkExitEntry
    (BN.to_decimal p)
    (BN.to_decimal (BN.of_binary (substring 0 42 binary)))
    (BN.to_decimal (BN.of_binary (substring 96 160 binary))).

End ExitQueue.


(** ** rootchain.js: [getExitTime] *)
Module ExitTime.
Local Open Scope Z_scope.

Record Args := mkArgs {
  exitRequestBlockNumber : N;
  submissionBlockNumber : N;
  retries : Z
}.

Record Block := mkBlock { timestamp : Z }.

Record ExitTimeResult := mkResult {
  scheduledFinalizationTime : Z;
  msUntilFinalization : Z
}.

(** What the chain and the clock answer during one invocation. The period
    and the timestamps are the Numbers the code makes of the answers, in
    seconds, where the sums of doubles are exact. *)
Record World := mkWorld {
  minExitPeriod : Z;               (* plasmaContract.methods.minExitPeriod() *)
  getBlock : N -> option Block;    (* web3.eth.getBlock(n), null when unknown *)
  blocks : N -> Block;             (* plasmaContract.methods.blocks(n) *)
  clock_ms : Z                     (* (new Date()).getTime() *)
}.

Inductive error :=
| TypeError (msg : string)
| Error (msg : string).

Inductive effect :=
| CallMinExitPeriod
| CallGetBlock (n : N)
| CallBlocks (n : N)
| SetTimeout (callback : Args) (delay : Z).

(** The body of the async function: it either throws or returns, and leaves
    a trace of the calls it made and the timers it set. *)
Definition M (A : Type) : Type := list effect -> (error + A) * list effect.

Definition ret {A} (a : A) : M A := fun t => (inr a, t).

Definition bind {A B} (m : M A) (k : A -> M B) : M B :=
  fun t => match m t with
           | (inr a, t') => k a t'
           | (inl e, t') => (inl e, t')
           end.

Definition throw {A} (e : error) : M A := fun t => (inl e, t).

Definition perform (ev : effect) : M unit := fun t => (inr tt, t ++ [ev]).

Notation "x <~ e ;; k" := (bind e (fun x => k))
  (at level 61, e at next level, right associativity).

Definition bufferSeconds : Z := 5.
Definition retryInterval : Z := 5000.

(** [exitBlock.timestamp]: reading a property of [null] throws. *)
Definition timestamp_of (b : option Block) : M Z :=
  match b with
  | Some blk => ret (timestamp blk)
  | None => throw (TypeError "Cannot read property 'timestamp' of null")
  end.

(** [_submissionBlockNumber % 1000 === 0]: the operand is a string, so the
    remainder is taken of the Number it converts to, the nearest double;
    the remainder of [Infinity] is [NaN], which is not 0. *)
Definition multiple_of_1000 (n : N) : bool :=
  JsNumber.is_finite n && (Z.of_N (JsNumber.to_double n) mod 1000 =? 0).

Definition getExitTime (w : World) (a : Args) : M ExitTimeResult :=
  let _exitRequestBlockNumber := exitRequestBlockNumber a in
  let _submissionBlockNumber := submissionBlockNumber a in
  _ <~ perform CallMinExitPeriod ;;
  let minExitPeriodSeconds := minExitPeriod w in
  _ <~ perform (CallGetBlock _exitRequestBlockNumber) ;;
  let exitBlock := getBlock w _exitRequestBlockNumber in
  _ <~ match exitBlock with
       | Some _ => ret tt
       | None =>
           if retries a >? 0 then
             perform (SetTimeout
                        (mkArgs _exitRequestBlockNumber _submissionBlockNumber
                                (retries a - 1))
                        retryInterval)
           else
             throw (Error ("Could not get exit request block data: "
                           ++ BN.to_decimal _exitRequestBlockNumber))
       end ;;
  _ <~ perform (CallBlocks _submissionBlockNumber) ;;
  let submissionBlock := blocks w _submissionBlockNumber in
  scheduled <~
    (if negb (multiple_of_1000 _submissionBlockNumber) then
       exitTimestamp <~ timestamp_of exitBlock ;;
       ret (Z.max (exitTimestamp + minExitPeriodSeconds)
                  (timestamp submissionBlock + minExitPeriodSeconds))
     else
       exitTimestamp <~ timestamp_of exitBlock ;;
       ret (Z.max (exitTimestamp + minExitPeriodSeconds)
                  (timestamp submissionBlock + minExitPeriodSeconds * 2))) ;;
  let currentUnix := (clock_ms w + 500) / 1000 in
  let msUntil := (scheduled + bufferSeconds - currentUnix) * 1000 in
  ret (mkResult (scheduled + bufferSeconds) msUntil).

(** The timer an invocation left behind, if any. *)
Fixpoint pending_timer (t : list effect) : option (Args * Z) :=
  match t with
  | [] => None
  | SetTimeout a d :: _ => Some (a, d)
  | _ :: t' => pending_timer t'
  end.

(** The call and the timers it sets off. [world k] is what the chain answers
    when the k-th invocation runs. The head of the list is the invocation
    whose promise the caller holds; the promise of every later one is the
    return value of a timer callback, which nobody receives. *)
Fixpoint invocations (fuel : nat) (world : nat -> World) (k : nat) (a : Args)
  : list ((error + ExitTimeResult) * list effect) :=
  match fuel with
  | O => []
  | S fuel' =>
      let r := getExitTime (world k) a [] in
      r :: match pending_timer (snd r) with
           | Some (a', _) => invocations fuel' world (S k) a'
           | None => []
           end
  end.

(** The two formulas the specification gives for the scheduled time. *)
Definition spec_elevated (exitTs subTs period : Z) : Z :=
  Z.max exitTs subTs + period.

Definition spec_regular (exitTs subTs period : Z) : Z :=
  Z.max exitTs (subTs + 2 * period).

(** What the code schedules once both blocks are at hand. *)
Definition scheduled (a : Args) (exitTs subTs period : Z) : Z :=
  if multiple_of_1000 (submissionBlockNumber a)
  then Z.max (exitTs + period) (subTs + 2 * period)
  else spec_elevated exitTs subTs period.

(** A chain for the examples: period 10, exit-request block at time 100,
    submission block at time 0. *)
Definition sample_world : World :=
  mkWorld 10 (fun _ => Some (mkBlock 100)) (fun _ => mkBlock 0) 0.

(** The error of reading [timestamp] of the null block. *)
Definition null_timestamp : error :=
  TypeError "Cannot read property 'timestamp' of null".

(** A chain on which block 123 never shows up, and one on which it shows up
    when the third invocation asks. *)
Definition never_there : nat -> World :=
  fun _ => mkWorld 604800 (fun _ => None) (fun _ => mkBlock 1600000000) 1600000100000.

Definition there_at_third : nat -> World :=
  fun k => mkWorld 604800
             (fun _ => if (k <? 2)%nat then None else Some (mkBlock 1600000050))
             (fun _ => mkBlock 1600000000) 1600000100000.

End ExitTime.

(** ** rootchain.js: the memoised exit-game handle *)
Module Handles.

Record Bonds := mkBonds {
  standardExit : N;
  piggyback : N;
  inflightExit : N
}.

(** [contract] is the object [getContract] builds for [address], and a bond
    is the [Number] of what the contract answers. *)
Record ExitGame := mkExitGame {
  contract : N;
  address : N;
  bonds : Bonds
}.

(** What the chain answers; every lookup is answered. *)
Record Chain := mkChain {
  exitGames : N -> N;               (* plasmaContract.methods.exitGames(type) *)
  startStandardExitBondSize : N -> N;
  piggybackBondSize : N -> N;
  startIFEBondSize : N -> N
}.

Inductive lookup :=
| LExitGames (paymentType : N)
| LStandardExitBond (contract : N)
| LPiggybackBond (contract : N)
| LIFEBond (contract : N).

(** The client instance: the memo field and the on-chain calls issued so far. *)
Record Client := mkClient {
  paymentExitGame : option ExitGame;
  issued : list lookup
}.

Definition PAYMENT_TYPE : N := 1.

(** One call of [getPaymentExitGame], cut at its two [await]s. *)
Inductive task :=
| Start
| AwaitAddress
| AwaitBonds (address : N)
| Done (result : ExitGame).

(** [Number(bondSizes[i])]: the chain answers a uint256, and the handle
    keeps the double nearest to it. *)
Definition Number (answer : N) : N := JsNumber.to_double answer.

(** The [bonds] built from what [ch] answers for the contract at [address]. *)
Definition bonds_of (ch : Chain) (address : N) : Bonds :=
  mkBonds (Number (startStandardExitBondSize ch address))
          (Number (piggybackBondSize ch address))
          (Number (startIFEBondSize ch address)).

(** Run a task up to its next [await] (or to its [return]); [ch] is what
    the chain answers to the lookups this stretch was waiting for. *)
Definition resume (ch : Chain) (c : Client) (t : task) : Client * task :=
  match t with
  | Start =>
      match paymentExitGame c with
      | Some g => (c, Done g)
      | None =>
          (mkClient (paymentExitGame c) (issued c ++ [LExitGames PAYMENT_TYPE]),
           AwaitAddress)
      end
  | AwaitAddress =>
      let address := exitGames ch PAYMENT_TYPE in
      (mkClient (paymentExitGame c)
                (issued c ++ [LStandardExitBond address; LPiggybackBond address;
                              LIFEBond address]),
       AwaitBonds address)
  | AwaitBonds address =>
      let g := mkExitGame address address (bonds_of ch address) in
      (mkClient (Some g) (issued c), Done g)
  | Done g => (c, Done g)
  end.

(** The handle a resolution produces when the chain answers as [ch]
    throughout. *)
Definition resolved (ch : Chain) : ExitGame :=
  let address := exitGames ch PAYMENT_TYPE in
  mkExitGame address address (bonds_of ch address).



(** One call run from start to finish with nothing in between. *)
Definition call (ch : Chain) (c : Client) : Client * task :=
  let '(c1, t1) := resume ch c Start in
  let '(c2, t2) := resume ch c1 t1 in
  resume ch c2 t2.













End Handles.

(** ** [mergeUtxosToOutput] *)
Module Merge.
Local Open Scope Z_scope.

(** A UTXO as the merge reads it. [amount] is whatever the caller put
    there; [Amount] is the type of those values. *)
Record Utxo (Amount : Type) := mkUtxo {
  owner : string;
  currency : string;
  amount : Amount
}.
Arguments mkUtxo {Amount} owner currency amount.
Arguments owner {Amount} u.
Arguments currency {Amount} u.
Arguments amount {Amount} u.

(** The output; [outputAmount] is the value of the BN the reduction ends
    with. *)
Record Output := mkOutput {
  outputType : Z;
  outputGuard : string;
  outputCurrency : string;
  outputAmount : Z
}.

(** What a call throws: an [Error] of the merge itself with its message,
    or the error the conversion of an amount threw. *)
Inductive exn (E : Type) :=
| Error (msg : string)
| Thrown (e : E).
Arguments Error {E} msg.
Arguments Thrown {E} e.

(** lodash [uniqBy]: keep the first element of every key. *)
Fixpoint uniqBy_from {A K} (eqb : K -> K -> bool) (iteratee : A -> K)
  (seen : list K) (l : list A) : list A :=
  match l with
  | [] => []
  | x :: xs =>
      let k := iteratee x in
      if existsb (eqb k) seen then uniqBy_from eqb iteratee seen xs
      else x :: uniqBy_from eqb iteratee (k :: seen) xs
  end.

Definition uniqBy {A K} (eqb : K -> K -> bool) (iteratee : A -> K) (l : list A) :=
  uniqBy_from eqb iteratee [] l.

Section Conversion.
Context {Amount E : Type}.

(** [numberToBN] of the package number-to-bn, which is not among the
    sources: [inr v] is the BN of value [v] it returns for an amount,
    [inl e] the error it throws. *)
Variable numberToBN : Amount -> E + Z.

(** [utxos.reduce((prev, curr) => prev.add(numberToBN(curr.amount)),
    numberToBN(0))]: the reduction starts from the BN of 0 and adds the
    converted amounts from left to right; the first conversion that throws
    ends it. *)
Fixpoint reduce_amounts (utxos : list (Utxo Amount)) (prev : Z) : E + Z :=
  match utxos with
  | [] => inr prev
  | curr :: rest =>
      match numberToBN (amount curr) with
      | inl e => inl e
      | inr v => reduce_amounts rest (prev + v)
      end
  end.

(** [inl] is a [throw]. *)
Definition mergeUtxosToOutput (utxos : list (Utxo Amount)) : exn E + Output :=
  if (List.length utxos <? 2)%nat then inl (Error "Must merge at least 2 utxos")
  else if (4 <? List.length utxos)%nat then inl (Error "Cannot merge more than 4 utxos")
  else
    let isSameCurrency :=
      Nat.eqb (List.length (uniqBy String.eqb currency utxos)) 1 in
    if negb isSameCurrency then inl (Error "All utxo currency must be the same")
    else
      let isSameOwner :=
        Nat.eqb (List.length (uniqBy String.eqb owner utxos)) 1 in
      if negb isSameOwner then inl (Error "All utxo owner must be the same")
      else
        match utxos with
        | u0 :: _ =>
            match reduce_amounts utxos 0 with
            | inl e => inl (Thrown e)
            | inr sum => inr (mkOutput 1 (owner u0) (currency u0) sum)
            end
        | [] => inl (Error "Cannot read property 'owner' of undefined")
        end.

(** The conversion takes the amount of [u], or throws on it. *)
Definition accepted (u : Utxo Amount) : Prop :=
  exists v, numberToBN (amount u) = inr v.

Definition rejected (u : Utxo Amount) : Prop :=
  exists e, numberToBN (amount u) = inl e.

(** The value the conversion gives the amount of [u]. *)
Definition value_of (u : Utxo Amount) : Z :=
  match numberToBN (amount u) with
  | inr v => v
  | inl _ => 0
  end.

(** The sum of the converted amounts. *)
Definition total (utxos : list (Utxo Amount)) : Z :=
  fold_right Z.add 0 (map value_of utxos).

End Conversion.

Definition throws {E} (r : exn E + Output) : Prop := exists e, r = inl e.

(** Two elements of [utxos] differ in the field [f]. *)
Definition mixed {Amount K} (f : Utxo Amount -> K) (utxos : list (Utxo Amount)) : Prop :=
  exists u v, In u utxos /\ In v utxos /\ f u <> f v.

(** Amounts for the examples: a missing field, a Number written as a
    non-negative integer literal, a Number with a fractional part (1.5,
    say), and a BN instance. *)
Inductive JsAmount :=
| Undefined
| Integer (n : N)
| Fractional
| BigNumber (z : Z).

Inductive NumberToBNError := InvalidNumberValue.

(** number-to-bn on these amounts. A Number is printed with [String] and
    the print is read as a decimal integer when it consists of digits only:
    a fractional number prints with a point and a number from 10^21 on
    with an exponent, and both are refused, as is [undefined]; a BN
    instance is taken at its value. *)
Definition number_to_bn (a : JsAmount) : NumberToBNError + Z :=
  match a with
  | Undefined => inl InvalidNumberValue
  | Integer n =>
      match JsNumber.toString n with
      | Some digits =>
          match BN.of_decimal digits with
          | Some v => inr (Z.of_N v)
          | None => inl InvalidNumberValue
          end
      | None => inl InvalidNumberValue
      end
  | Fractional => inl InvalidNumberValue
  | BigNumber z => inr z
  end.

End Merge.

(** ** Byte strings *)
Module Bytes.

Definition byte_of_N (n : N) : byte :=
  match Byte.of_N n with
  | Some b => b
  | None => x00
  end.

Fixpoint le_bytes (fuel : nat) (n : N) : list byte :=
  match fuel with
  | O => []
  | S fuel' =>
      if n =? 0 then []
      else byte_of_N (n mod 256) :: le_bytes fuel' (n / 256)
  end.

(** The minimal big-endian bytes of [n]: no leading zero byte, and no byte
    at all for zero. A number has at most as many bytes as bits. *)
Definition be_bytes (n : N) : list byte :=
  rev (le_bytes (N.to_nat (N.size n)) n).

Fixpoint from_le (bs : list byte) : N :=
  match bs with
  | [] => 0
  | b :: rest => Byte.to_N b + 256 * from_le rest
  end.

(** The number a big-endian byte string stands for. *)
Definition from_be (bs : list byte) : N := from_le (rev bs).

Definition hex_digit (n : N) : ascii :=
  match n with
  | 0 => "0" | 1 => "1" | 2 => "2" | 3 => "3" | 4 => "4" | 5 => "5" | 6 => "6"
  | 7 => "7" | 8 => "8" | 9 => "9" | 10 => "a" | 11 => "b" | 12 => "c"
  | 13 => "d" | 14 => "e" | _ => "f"
  end%char.

Definition hex_value (c : ascii) : option N :=
  let n := N_of_ascii c in
  if (48 <=? n) && (n <=? 57) then Some (n - 48)
  else if (97 <=? n) && (n <=? 102) then Some (n - 87)
  else if (65 <=? n) && (n <=? 70) then Some (n - 55)
  else None.

(** [buffer.toString('hex')]. *)
Fixpoint hex_of_bytes (bs : list byte) : string :=
  match bs with
  | [] => EmptyString
  | b :: rest =>
      String (hex_digit (Byte.to_N b / 16))
        (String (hex_digit (Byte.to_N b mod 16)) (hex_of_bytes rest))
  end.

(** [Buffer.from(str, 'hex')] for a string of hex digit pairs. *)
Fixpoint bytes_of_hex (s : string) : option (list byte) :=
  match s with
  | EmptyString => Some []
  | String hi (String lo rest) =>
      h <- hex_value hi ;; l <- hex_value lo ;;
      bs <- bytes_of_hex rest ;;
      Some (byte_of_N (16 * h + l) :: bs)
  | String _ EmptyString => None
  end.

End Bytes.

(** ** hexPrefix.js *)
(** [Joi.assert({ data }, hexPrefixSchema)] lets a string pass that is not
    empty ([Joi.string().required()]); [None] is the error it throws. *)
Definition hexPrefix (data : string) : option string :=
  match data with
  | EmptyString => None
  | String _ _ =>
      Some (if String.prefix "0x" data then data else ("0x" ++ data)%string)
  end.

(** ** UTXO positions *)
Module UtxoPos.

Record Input := mkInput {
  blknum : N;
  txindex : N;
  oindex : N
}.

Definition BLOCK_OFFSET : N := 1000000000.
Definition TX_OFFSET : N := 10000.

(** Modelled from the spec: [transaction.encodeUtxoPos] (transaction.js is
    not among the sources). The position is
    [blknum*1_000_000_000 + txindex*10_000 + oindex], in exact arithmetic. *)
Definition encodeUtxoPos (utxo : Input) : N :=
  blknum utxo * BLOCK_OFFSET + txindex utxo * TX_OFFSET + oindex utxo.

(** Modelled from the spec: [transaction.decodeUtxoPos] (transaction.js is
    not among the sources): integer division and remainder by 10_000 and
    1_000_000_000. *)
Definition decodeUtxoPos (utxoPos : N) : Input :=
  mkInput (utxoPos / BLOCK_OFFSET)
          ((utxoPos mod BLOCK_OFFSET) / TX_OFFSET)
          (utxoPos mod TX_OFFSET).

End UtxoPos.

(** ** The length-prefixed recursive byte format *)
Module Rlp.
Import Bytes.

#[warnings="-register-all"]
Inductive item :=
| Str (b : list byte)
| Lst (l : list item).

(** Modelled from the spec: the length prefix of the encoder (the rlp
    package is not among the sources). A payload shorter than 56 bytes gets
    one byte, [offset + length]; a longer one gets [offset + 55 + k] followed
    by the [k] bytes of its length. *)
Definition encode_length (len offset : N) : list byte :=
  if len <? 56 then [byte_of_N (len + offset)]
  else
    let bl := be_bytes len in
    byte_of_N (N.of_nat (List.length bl) + offset + 55) :: bl.

(** Modelled from the spec: [rlp.encode] (the rlp package is not among the
    sources). A byte string is its length prefix and its content, a list is
    the length prefix of its encoded items and those items; a single byte
    below 0x80 is its own encoding, as in the fixtures of the transaction
    test ([01] for the transaction type 1). *)
Fixpoint rlp_encode (i : item) : list byte :=
  match i with
  | Str b =>
      match b with
      | [x] => if Byte.to_N x <? 128 then [x]
               else encode_length 1 128 ++ b
      | _ => encode_length (N.of_nat (List.length b)) 128 ++ b
      end
  | Lst l =>
      let payload := List.concat (map rlp_encode l) in
      encode_length (N.of_nat (List.length payload)) 192 ++ payload
  end.

Definition take (len : N) (bs : list byte) : option (list byte * list byte) :=
  if N.of_nat (List.length bs) <? len then None
  else Some (firstn (N.to_nat len) bs, skipn (N.to_nat len) bs).

(** Modelled from the spec: [rlp.decode] (the rlp package is not among the
    sources), the inverse of [rlp_encode]. It fails on a length prefix that
    runs past the input. [fuel] bounds the nesting and the number of items. *)
Fixpoint rlp_decode (fuel : nat) (bs : list byte) : option (item * list byte) :=
  match fuel with
  | O => None
  | S fuel' =>
      match bs with
      | [] => None
      | b :: rest =>
          let n := Byte.to_N b in
          if n <? 128 then Some (Str [b], rest)
          else if n <? 184 then
            p <- take (n - 128) rest ;; Some (Str (fst p), snd p)
          else if n <? 192 then
            lb <- take (n - 183) rest ;;
            p <- take (from_be (fst lb)) (snd lb) ;; Some (Str (fst p), snd p)
          else if n <? 248 then
            p <- take (n - 192) rest ;;
            items <- rlp_decode_list fuel' (fst p) ;; Some (Lst items, snd p)
          else
            lb <- take (n - 247) rest ;;
            p <- take (from_be (fst lb)) (snd lb) ;;
            items <- rlp_decode_list fuel' (fst p) ;; Some (Lst items, snd p)
      end
  end
with rlp_decode_list (fuel : nat) (bs : list byte) : option (list item) :=
  match fuel with
  | O => None
  | S fuel' =>
      match bs with
      | [] => Some []
      | _ :: _ =>
          r <- rlp_decode fuel' bs ;;
          items <- rlp_decode_list fuel' (snd r) ;; Some (fst r :: items)
      end
  end.

(** Decoding a whole input: nothing may follow the item. *)
Definition decode (bs : list byte) : option item :=
  r <- rlp_decode (2 * List.length bs) bs ;;
  match snd r with
  | [] => Some (fst r)
  | _ :: _ => None
  end.

(** The encoding fits the format: its length can be written in 8 bytes. *)
Definition fits (bs : list byte) : Prop := N.of_nat (List.length bs) < 2 ^ 64.

(** Induction over items, through the lists they nest. *)
Fixpoint item_nested_ind (P : item -> Prop)
  (HStr : forall b, P (Str b))
  (HLst : forall l, Forall P l -> P (Lst l))
  (i : item) : P i :=
  match i with
  | Str b => HStr b
  | Lst l =>
      HLst l ((fix all (l : list item) : Forall P l :=
                 match l with
                 | [] => Forall_nil P
                 | x :: xs => Forall_cons x (item_nested_ind P HStr HLst x) (all xs)
                 end) l)
  end.

(** What decoding an item achieves, with fuel to spare and whatever follows. *)
Definition reads_back (i : item) : Prop :=
  forall fuel rest,
    fits (rlp_encode i) ->
    (2 * List.length (rlp_encode i) <= fuel)%nat ->
    rlp_decode fuel (rlp_encode i ++ rest) = Some (i, rest).

End Rlp.

(** ** The transaction codec *)
Module Transaction.
Import Bytes Rlp UtxoPos.

(** The three ways an amount is supplied. *)
Inductive Amount :=
| Native (n : N)          (* a number literal *)
| Decimal (s : string)    (* a decimal string *)
| Big (n : N).            (* a BN *)

Record Output := mkOutput {
  outputType : N;
  outputGuard : list byte;
  currency : list byte;
  amount : Amount
}.

Record Transaction := mkTransaction {
  txType : N;
  inputs : list Input;
  outputs : list Output;
  txData : N;
  metadata : option (list byte)
}.

(** What [decodeTxBytes] returns: the amount is a decimal string. *)
Record DecodedOutput := mkDecodedOutput {
  d_outputType : N;
  d_outputGuard : list byte;
  d_currency : list byte;
  d_amount : string
}.

Record DecodedTransaction := mkDecoded {
  d_txType : N;
  d_inputs : list Input;
  d_outputs : list DecodedOutput;
  d_txData : N;
  d_metadata : list byte
}.

Definition ETH_CURRENCY : string := "0x0000000000000000000000000000000000000000".
Definition NULL_ADDRESS : list byte := repeat x00 20.
Definition NULL_METADATA : list byte := repeat x00 32.

(** Modelled from the spec: the conversion of an amount to an
    arbitrary-precision integer (number-to-bn, called from transaction.js;
    neither is among the sources). A string is read as decimal digits and a
    BN is taken as it is; a number is printed and the print is read, which
    is what the first fixture of the transaction test shows (the literal
    500000000000000123 is encoded as 500000000000000100). *)
Definition numberToBN (a : Amount) : option N :=
  match a with
  | Native n => s <- JsNumber.toString n ;; BN.of_decimal s
  | Decimal s => BN.of_decimal s
  | Big n => Some n
  end.

Definition pad32 (b : list byte) : list byte :=
  repeat x00 (32 - List.length b) ++ b.

Definition input_item (i : Input) : item :=
  Str (pad32 (be_bytes (encodeUtxoPos i))).

Definition output_item (o : Output) : option item :=
  v <- numberToBN (amount o) ;;
  Some (Lst [Str (be_bytes (outputType o));
             Lst [Str (outputGuard o); Str (currency o); Str (be_bytes v)]]).

Definition metadata_bytes (m : option (list byte)) : list byte :=
  match m with
  | Some b => b
  | None => []
  end.

(** Modelled from the spec: the nested list [transaction.encode] serialises
    (transaction.js is not among the sources). Integers are their minimal
    big-endian bytes, zero the empty string; an input is the 32-byte
    big-endian UTXO position and an output is [type, [guard, currency,
    amount]], in the order type, inputs, outputs, txData, metadata, all as
    in the fixtures of the transaction test. A transaction without metadata
    has the empty string in its place there (the fixtures end in [80 80]),
    where the specification's text has 32 zero bytes. *)
Definition to_item (tx : Transaction) : option item :=
  outs <- mapM output_item (outputs tx) ;;
  Some (Lst [Str (be_bytes (txType tx));
             Lst (map input_item (inputs tx));
             Lst outs;
             Str (be_bytes (txData tx));
             Str (metadata_bytes (metadata tx))]).

(** Modelled from the spec: [transaction.encode] (transaction.js is not
    among the sources). [None] stands for the error of an amount that is
    not a number. *)
Definition encode (tx : Transaction) : option (list byte) :=
  option_map rlp_encode (to_item tx).

(** The encoding as the hex string the library hands out. *)
Definition encodeHex (tx : Transaction) : option string :=
  bs <- encode tx ;; hexPrefix (hex_of_bytes bs).

Definition decode_input (i : item) : option Input :=
  match i with
  | Str b => Some (decodeUtxoPos (from_be b))
  | Lst _ => None
  end.

Definition decode_output (i : item) : option DecodedOutput :=
  match i with
  | Lst [Str ty; Lst [Str guard; Str cur; Str amt]] =>
      Some (mkDecodedOutput (from_be ty) guard cur (BN.to_decimal (from_be amt)))
  | _ => None
  end.

(** Modelled from the spec: the metadata field of [transaction.decodeTxBytes]
    (transaction.js is not among the sources). A metadata that is present
    comes back as it is. An absent one, the empty string on the wire, comes
    back as the 20-byte zero string: the decoding test expects
    [metadata: '0x0000000000000000000000000000000000000000'] for a
    transaction encoded without metadata, where the specification's text
    has 32 zero bytes. *)
Definition decode_metadata (m : list byte) : list byte :=
  match m with
  | [] => NULL_ADDRESS
  | _ :: _ => m
  end.

(** Modelled from the spec: [transaction.decodeTxBytes] (transaction.js is
    not among the sources), the inverse of [encode]. The amount is returned
    as a decimal string. [None] stands for the error on malformed bytes or
    a wrong number of fields. *)
Definition decodeTxBytes (bs : list byte) : option DecodedTransaction :=
  i <- Rlp.decode bs ;;
  match i with
  | Lst [Str ty; Lst ins; Lst outs; Str data; Str meta] =>
      ins' <- mapM decode_input ins ;;
      outs' <- mapM decode_output outs ;;
      Some (mkDecoded (from_be ty) ins' outs' (from_be data) (decode_metadata meta))
  | _ => None
  end.

(** [Buffer.from(hex)] for an address given with or without [0x]. *)
Definition address_bytes (s : string) : option (list byte) :=
  prefixed <- hexPrefix s ;;
  bytes_of_hex (substring 2 (String.length prefixed - 2) prefixed).

(** The amount alternatives of [encodeDepositSchema]: an integer number
    (Joi refuses one beyond the safe range), a string, or a BN. *)
Definition validAmount (a : Amount) : bool :=
  match a with
  | Native n => n <=? JsNumber.MAX_SAFE_INTEGER
  | Decimal _ => true
  | Big _ => true
  end.

(** Modelled from the spec: [transaction.encodeDeposit] (transaction.js is
    not among the sources): the transaction of type 1 without inputs, with
    the one output of type 1 owned by [owner], txData 0 and the 32 zero
    bytes of metadata, encoded. The arguments are checked against
    [encodeDepositSchema] and the addresses are hex-prefixed. *)
Definition encodeDeposit (owner : string) (amount : Amount) (currency : string)
  : option string :=
  if validAmount amount then
    guard <- address_bytes owner ;;
    cur <- address_bytes currency ;;
    encodeHex (mkTransaction 1 [] [mkOutput 1 guard cur amount] 0 (Some NULL_METADATA))
  else None.

(** What decoding the encoding of [tx] is expected to give: every field as
    it was, the amount as the decimal string of its value, and the metadata
    as [decode_metadata] leaves it. *)
Definition decoded_output (o : Output) : option DecodedOutput :=
  v <- numberToBN (amount o) ;;
  Some (mkDecodedOutput (outputType o) (outputGuard o) (currency o) (BN.to_decimal v)).

Definition decoded (tx : Transaction) : option DecodedTransaction :=
  outs <- mapM decoded_output (outputs tx) ;;
  Some (mkDecoded (txType tx) (inputs tx) outs (txData tx)
                  (decode_metadata (metadata_bytes (metadata tx)))).

(** The value an amount is supplied with. *)
Definition amount_value (a : Amount) : option N :=
  match a with
  | Native n => Some n
  | Decimal s => BN.of_decimal s
  | Big n => Some n
  end.

(** A decoded output is the output it came from, the decoded amount being
    a decimal string of the value that was supplied. *)
Definition same_output (o : Output) (d : DecodedOutput) : Prop :=
  d_outputType d = outputType o /\
  d_outputGuard d = outputGuard o /\
  d_currency d = currency o /\
  exists v, amount_value (amount o) = Some v /\ BN.of_decimal (d_amount d) = Some v.

(** The decoded transaction is the transaction that was encoded; an omitted
    metadata comes back as the 20-byte zero string. *)
Definition reproduces (tx : Transaction) (d : DecodedTransaction) : Prop :=
  d_txType d = txType tx /\
  d_inputs d = inputs tx /\
  Forall2 same_output (outputs tx) (d_outputs d) /\
  d_txData d = txData tx /\
  match metadata tx with
  | Some m => d_metadata d = m
  | None => d_metadata d = NULL_ADDRESS
  end.

(** Inputs within the ranges of the position codec, amounts that are
    numbers (a native one within the safe range), and a metadata that is
    not the empty string. *)
Definition wf_input (i : Input) : Prop :=
  txindex i <= 9999 /\ oindex i <= 3.

Definition wf_amount (a : Amount) : Prop :=
  match a with
  | Native n => n <= JsNumber.MAX_SAFE_INTEGER
  | Decimal s => exists v, BN.of_decimal s = Some v
  | Big _ => True
  end.

Definition wf_transaction (tx : Transaction) : Prop :=
  Forall wf_input (inputs tx) /\
  Forall (fun o => wf_amount (amount o)) (outputs tx) /\
  metadata tx <> Some [].

(** The encoding of [tx] is short enough for the format. *)
Definition encoding_fits (tx : Transaction) : Prop :=
  match encode tx with
  | Some bytes => fits bytes
  | None => True
  end.

(** Two outputs that differ at most in how the amount is written: the
    second amount is a number of the same value as the first. *)
Definition same_value (o o' : Output) : Prop :=
  outputType o' = outputType o /\
  outputGuard o' = outputGuard o /\
  currency o' = currency o /\
  wf_amount (amount o') /\
  amount_value (amount o') = amount_value (amount o).

(** The transactions of the transaction test. *)
Definition address (s : string) : list byte :=
  match address_bytes s with
  | Some b => b
  | None => []
  end.

Definition test_output (guard : string) (a : Amount) : Output :=
  mkOutput 1 (address guard) (address ETH_CURRENCY) a.

Definition test_tx (a : Amount) : Transaction :=
  mkTransaction 1 [mkInput 19774001 0 0]
    [test_output "0xf4ebbe787311bb955bb353b7a4d8b97af8ed1c9b" a] 0 None.

Definition test_tx_4x4 : Transaction :=
  mkTransaction 1
    [mkInput 19774001 0 0; mkInput 19774002 0 0; mkInput 19774002 0 1;
     mkInput 19774002 10 0]
    [test_output "0xf4ebbe787311bb955bb353b7a4d8b97af8ed1c9b" (Native 1000000000000000000);
     test_output "0x3272ee86d8192f59261960c9ae186063c8c9041f" (Native 1000000000000000000);
     test_output "0x99d7b5c57c16acb24a327a37356a804a2f75dade" (Native 100000000);
     test_output "0xbfdf85743ef16cfb1f8d4dd1dfc74c51dc496434" (Native 100)]
    0 None.

End Transaction.

(** ** rootchain.js: the vault handles and the operations that use the handles *)
Module RootChain.
Import Handles.

Definition ETH_VAULT_ID : N := 1.
Definition ERC20_VAULT_ID : N := 2.

(** [{ contract, address }]; [contract] is the object [getContract] builds
    for [address]. *)
Record Vault := mkVault {
  vaultContract : N;
  vaultAddress : N
}.

(** What the chain answers at one moment: the vault registry and the
    exit-game registry with the bond sizes. *)
Record World := mkWorld {
  vaults : N -> N;          (* plasmaContract.methods.vaults(id) *)
  games : Chain
}.

(** The RootChain object: its contract address, the three memo fields and
    the calls of [vaults] issued so far (the exit-game calls are kept in
    [exitGame]). *)
Record Instance := mkInstance {
  plasmaContractAddress : N;
  ethVault : option Vault;
  erc20Vault : option Vault;
  exitGame : Client;
  vaultLookups : list N
}.

Definition create (plasmaContractAddress : N) : Instance :=
  mkInstance plasmaContractAddress None None (mkClient None []) [].

(** [getErc20Vault], awaited to its end. *)
Definition getErc20Vault (w : World) (i : Instance) : Instance * Vault :=
  match erc20Vault i with
  | Some v => (i, v)
  | None =>
      let address := vaults w ERC20_VAULT_ID in
      let v := mkVault address address in
      (mkInstance (plasmaContractAddress i) (ethVault i) (Some v) (exitGame i)
                  (vaultLookups i ++ [ERC20_VAULT_ID]), v)
  end.

(** [getEthVault], awaited to its end. *)
Definition getEthVault (w : World) (i : Instance) : Instance * Vault :=
  match ethVault i with
  | Some v => (i, v)
  | None =>
      let address := vaults w ETH_VAULT_ID in
      let v := mkVault address address in
      (mkInstance (plasmaContractAddress i) (Some v) (erc20Vault i) (exitGame i)
                  (vaultLookups i ++ [ETH_VAULT_ID]), v)
  end.

(** [getPaymentExitGame], awaited to its end: the call of [Handles] run
    through its three stretches, which ends in [Done]. *)
Definition getPaymentExitGame (w : World) (i : Instance) : Instance * ExitGame :=
  let r := call (games w) (exitGame i) in
  (mkInstance (plasmaContractAddress i) (ethVault i) (erc20Vault i) (fst r)
              (vaultLookups i),
   match snd r with
   | Done g => g
   | _ => resolved (games w)
   end).

(** The [from], [gas], [gasPrice] and [privateKey] of the transaction
    options. *)
Record TxOptions := mkTxOptions {
  from : N;
  gas : N;
  gasPrice : N
}.

(** The [data] of a transaction: the ABI encoding of a method call. For
    [approve] the arguments are kept; for the calls that
    [txUtils.getTxData] (not among the sources) encodes, the contract and
    the method are. *)
Inductive Data :=
| Approve (token spender amount : N)
| MethodCall (contract : N) (method : string).

(** The transaction an operation hands to [txUtils.sendTx]. *)
Record TxDetails := mkTxDetails {
  tx_from : N;
  tx_to : N;
  tx_data : Data;
  tx_value : option N;
  tx_gas : N;
  tx_gasPrice : N
}.

(** The operations of the class that use a handle or send a transaction,
    with the arguments that decide the handle, the target and the value. *)
Inductive operation :=
| approveToken (erc20Address : N) (amount : N)
| deposit (amount : N) (currency : string)
| getStandardExitId
| getInFlightExitId
| getInFlightExitData
| startStandardExit
| challengeStandardExit
| processExits
| addToken
| startInFlightExit
| piggybackInFlightExitOnOutput
| piggybackInFlightExitOnInput
| challengeInFlightExitNotCanonical
| respondToNonCanonicalChallenge
| challengeInFlightExitInputSpent
| challengeInFlightExitOutputSpent
| deleteNonPiggybackedInFlightExit.

(** [transaction.ETH_CURRENCY], the zero address the transaction test
    passes as the native currency. *)
Definition ETH_CURRENCY : string := "0x0000000000000000000000000000000000000000".

(** An operation on the exit game: the handle is awaited and the
    transaction goes to its address, with [value] where the code sets one. *)
Definition onExitGame (w : World) (i : Instance) (o : TxOptions)
  (method : string) (value : Bonds -> option N) : Instance * option TxDetails :=
  let '(i', g) := getPaymentExitGame w i in
  (i', Some (mkTxDetails (from o) (address g) (MethodCall (contract g) method)
                         (value (bonds g)) (gas o) (gasPrice o))).

(** An operation on the PlasmaFramework contract itself. *)
Definition onPlasmaContract (i : Instance) (o : TxOptions) (method : string)
  : Instance * option TxDetails :=
  (i, Some (mkTxDetails (from o) (plasmaContractAddress i)
                        (MethodCall (plasmaContractAddress i) method)
                        None (gas o) (gasPrice o))).

(** One operation, awaited to its end: the instance afterwards and the
    transaction sent, if the operation sends one. *)
Definition exec (w : World) (i : Instance) (o : TxOptions) (op : operation)
  : Instance * option TxDetails :=
  match op with
  | approveToken erc20Address amount =>
      let '(i', v) := getErc20Vault w i in
      let spender := vaultAddress v in
      (i', Some (mkTxDetails (from o) erc20Address
                             (Approve erc20Address spender amount)
                             None (gas o) (gasPrice o)))
  | deposit amount currency =>
      let isEth := String.eqb currency ETH_CURRENCY in
      let '(i', v) := if isEth then getEthVault w i else getErc20Vault w i in
      (i', Some (mkTxDetails (from o) (vaultAddress v)
                             (MethodCall (vaultContract v) "deposit")
                             (if isEth then Some amount else None)
                             (gas o) (gasPrice o)))
  | getStandardExitId => (fst (getPaymentExitGame w i), None)
  | getInFlightExitId => (fst (getPaymentExitGame w i), None)
  | getInFlightExitData => (fst (getPaymentExitGame w i), None)
  | startStandardExit =>
      onExitGame w i o "startStandardExit" (fun b => Some (standardExit b))
  | challengeStandardExit =>
      onExitGame w i o "challengeStandardExit" (fun _ => None)
  | processExits => onPlasmaContract i o "processExits"
  | addToken => onPlasmaContract i o "addExitQueue"
  | startInFlightExit =>
      onExitGame w i o "startInFlightExit" (fun b => Some (inflightExit b))
  | piggybackInFlightExitOnOutput =>
      onExitGame w i o "piggybackInFlightExitOnOutput" (fun b => Some (piggyback b))
  | piggybackInFlightExitOnInput =>
      onExitGame w i o "piggybackInFlightExitOnInput" (fun b => Some (piggyback b))
  | challengeInFlightExitNotCanonical =>
      onExitGame w i o "challengeInFlightExitNotCanonical" (fun _ => None)
  | respondToNonCanonicalChallenge =>
      onExitGame w i o "respondToNonCanonicalChallenge" (fun _ => None)
  | challengeInFlightExitInputSpent =>
      onExitGame w i o "challengeInFlightExitInputSpent" (fun _ => None)
  | challengeInFlightExitOutputSpent =>
      onExitGame w i o "challengeInFlightExitOutputSpent" (fun _ => None)
  | deleteNonPiggybackedInFlightExit =>
      onExitGame w i o "deleteNonPiggybackedInFlightExit" (fun _ => None)
  end.

(** Operations awaited one after the other; each finds the chain as its
    [World] says. *)
Fixpoint session (steps : list (World * TxOptions * operation)) (i : Instance)
  : Instance * list (option TxDetails) :=
  match steps with
  | [] => (i, [])
  | (w, o, op) :: rest =>
      let '(i', d) := exec w i o op in
      let '(i'', ds) := session rest i' in
      (i'', d :: ds)
  end.

(** The bond an operation posts, if it posts one. *)
Definition bond_of (op : operation) : option (Bonds -> N) :=
  match op with
  | startStandardExit => Some standardExit
  | startInFlightExit => Some inflightExit
  | piggybackInFlightExitOnOutput | piggybackInFlightExitOnInput => Some piggyback
  | _ => None
  end.

(** The operations that send their transaction to the exit game, and those
    that await its handle. *)
Definition sendsToExitGame (op : operation) : bool :=
  match op with
  | approveToken _ _ | deposit _ _ | getStandardExitId | getInFlightExitId
  | getInFlightExitData | processExits | addToken => false
  | _ => true
  end.

Definition awaitsExitGame (op : operation) : bool :=
  match op with
  | approveToken _ _ | deposit _ _ | processExits | addToken => false
  | _ => true
  end.

(** The steps of a session and the sample data of the examples. *)
Definition step : Type := World * TxOptions * operation.

Definition world_a : World :=
  mkWorld (fun id => 100 + id) (mkChain (fun _ => 4096) (fun _ => 14) (fun _ => 28) (fun _ => 37)).

Definition world_b : World :=
  mkWorld (fun id => 200 + id) (mkChain (fun _ => 8192) (fun _ => 15) (fun _ => 29) (fun _ => 38)).

Definition options : TxOptions := mkTxOptions 7 21000 1.

(** [getDepositExitData]: [utxo_pos: blknum * 1000000000], a product of two
    numbers, that is the double nearest to the exact product. [blknum] is
    what [hexToNumber] returned. *)
Definition deposit_utxo_pos (blknum : N) : N :=
  JsNumber.to_double (JsNumber.to_double blknum * 1000000000).

(** The handle the instance works with once the exit game was awaited in [w]. *)
Definition handle_after (w : World) (i : Instance) : ExitGame :=
  match paymentExitGame (exitGame i) with
  | Some g => g
  | None => resolved (games w)
  end.



End RootChain.

(** ** The heap the exit queue is read from *)
Module Heap.

Definition heap_ok_at (raw : list N) (i : nat) : bool :=
  match nth_error raw (i / 2), nth_error raw i with
  | Some p, Some c => p <=? c
  | _, _ => true
  end.

(** The list is a min-heap stored from index 1: every entry from index 2 on
    is at least the entry at half its index. *)
Definition is_min_heap (raw : list N) : bool :=
  forallb (heap_ok_at raw) (seq 2 (List.length raw - 2)).

Definition all_uint256 (raw : list N) : bool :=
  forallb (fun p => p <? 2 ^ 256) raw.

(** The number a decimal field of an entry stands for. *)
Definition number (s : string) : N :=
  match BN.of_decimal s with
  | Some n => n
  | None => 0
  end.

End Heap.

(** * Properties *)

(** ** Decimal and binary renderings *)
Module BNFacts.
Import BN.

Lemma of_to_decimal n : of_decimal (to_decimal n) = Some n.
Proof.
  unfold of_decimal, to_decimal.
  rewrite NilEmpty.usu. simpl. now rewrite DecimalN.Unsigned.of_to.
Qed.

Lemma bin_acc_app s1 s2 acc :
  bin_acc (s1 ++ s2) acc = bin_acc s2 (bin_acc s1 acc).
Proof.
  revert acc. induction s1 as [|c s1 IH]; intros acc; simpl; auto.
Qed.

Lemma bin_acc_shift s acc :
  bin_acc s acc = acc * 2 ^ N.of_nat (String.length s) + bin_acc s 0.
Proof.
  revert acc. induction s as [|c s IH]; intros acc.
  - simpl. lia.
  - cbn [bin_acc String.length].
    rewrite (IH (2 * acc + bit_of_char c)), (IH (2 * 0 + bit_of_char c)).
    rewrite Nat2N.inj_succ, N.pow_succ_r'. lia.
Qed.

Lemma bit_of_char_bound c : bit_of_char c <= 1.
Proof. unfold bit_of_char. destruct (Ascii.eqb c "1"); lia. Qed.

Lemma bin_acc_bound s : bin_acc s 0 < 2 ^ N.of_nat (String.length s).
Proof.
  induction s as [|c s IH].
  - simpl. lia.
  - cbn [bin_acc String.length]. rewrite bin_acc_shift.
    rewrite Nat2N.inj_succ, N.pow_succ_r'.
    pose proof (bit_of_char_bound c). nia.
Qed.

Lemma of_binary_app s1 s2 :
  of_binary (s1 ++ s2) =
  of_binary s1 * 2 ^ N.of_nat (String.length s2) + of_binary s2.
Proof.
  unfold of_binary. rewrite bin_acc_app. apply bin_acc_shift.
Qed.

Lemma append_assoc (s1 s2 s3 : string) :
  ((s1 ++ s2) ++ s3)%string = (s1 ++ (s2 ++ s3))%string.
Proof. induction s1 as [|c s1 IH]; simpl; [reflexivity | now rewrite IH]. Qed.

Lemma pos_bin_acc p acc : pos_bin p acc = (pos_bin p EmptyString ++ acc)%string.
Proof.
  revert acc. induction p as [q IH|q IH|]; intros acc; simpl.
  - rewrite (IH (String "1" acc)), (IH (String "1" EmptyString)).
    now rewrite append_assoc.
  - rewrite (IH (String "0" acc)), (IH (String "0" EmptyString)).
    now rewrite append_assoc.
  - reflexivity.
Qed.

Lemma length_app (s1 s2 : string) :
  String.length (s1 ++ s2) = (String.length s1 + String.length s2)%nat.
Proof. induction s1; simpl; auto. Qed.

Lemma pos_bin_length p :
  String.length (pos_bin p EmptyString) = Pos.size_nat p.
Proof.
  induction p as [q IH|q IH|]; simpl; auto;
    rewrite pos_bin_acc, length_app, IH; simpl; lia.
Qed.

Lemma of_binary_pos_bin p : of_binary (pos_bin p EmptyString) = Npos p.
Proof.
  induction p as [q IH|q IH|]; simpl; auto;
    rewrite pos_bin_acc, of_binary_app, IH; simpl; lia.
Qed.

Lemma of_binary_zeros k : of_binary (zeros k) = 0.
Proof.
  unfold of_binary. induction k; simpl; auto.
Qed.

Lemma zeros_length k : String.length (zeros k) = k.
Proof. induction k; simpl; auto. Qed.

Lemma of_binary_digits n : of_binary (bin_digits n) = n.
Proof. destruct n; [reflexivity | apply of_binary_pos_bin]. Qed.

(** The rendering reads back as the number, whatever the padding. *)
Lemma of_binary_to_binary padding n : of_binary (to_binary padding n) = n.
Proof.
  unfold to_binary. rewrite of_binary_app, of_binary_zeros, of_binary_digits. lia.
Qed.

Lemma size_nat_lower p : 2 ^ N.of_nat (Pos.size_nat p) <= 2 * Npos p.
Proof.
  induction p as [q IH|q IH|]; cbn [Pos.size_nat].
  - rewrite Nat2N.inj_succ, N.pow_succ_r'. lia.
  - rewrite Nat2N.inj_succ, N.pow_succ_r'. lia.
  - simpl. lia.
Qed.

Lemma bin_digits_length n :
  0 < n < 2 ^ 256 ->
  (1 <= String.length (bin_digits n) <= 256)%nat.
Proof.
  intros [Hpos Hlt]. destruct n as [|p]; [lia|].
  cbn [bin_digits]. rewrite pos_bin_length.
  split; [destruct p; simpl; lia|].
  destruct (Nat.le_gt_cases (Pos.size_nat p) 256) as [H|H]; auto.
  exfalso. pose proof (size_nat_lower p) as Hl.
  assert (2 ^ 257 <= 2 ^ N.of_nat (Pos.size_nat p)) by (apply N.pow_le_mono_r; lia).
  change (2 ^ 257) with (2 * 2 ^ 256) in *. lia.
Qed.

(** For a uint256 the rendering is exactly 256 digits long. *)
Lemma to_binary_256_length n :
  n < 2 ^ 256 -> String.length (to_binary 256 n) = 256%nat.
Proof.
  intros Hlt. unfold to_binary. rewrite length_app, zeros_length.
  destruct (N.eq_dec n 0) as [->|Hn].
  - reflexivity.
  - pose proof (bin_digits_length n ltac:(lia)) as [H1 H2].
    set (l := String.length (bin_digits n)) in *.
    destruct (Nat.eq_dec l 256) as [->|Hne]; [reflexivity|].
    rewrite (Nat.mod_small l 256) by lia.
    rewrite (Nat.mod_small (256 - l) 256) by lia. lia.
Qed.

Lemma substring_split n s :
  (n <= String.length s)%nat ->
  (substring 0 n s ++ substring n (String.length s - n) s)%string = s.
Proof.
  revert s. induction n as [|n IH]; intros s Hn.
  - simpl. rewrite Nat.sub_0_r.
    destruct s as [|c s]; [reflexivity|].
    clear. cbn [substring append]. revert c.
    induction s as [|d s IH]; intros c; [reflexivity|].
    cbn [String.length substring]. f_equal. apply IH.
  - destruct s as [|c s]; [simpl in Hn; lia|].
    cbn [String.length substring append Nat.sub]. f_equal.
    apply IH. simpl in Hn. lia.
Qed.

Lemma substring_length a n s :
  (a + n <= String.length s)%nat -> String.length (substring a n s) = n.
Proof.
  revert a n. induction s as [|c s IH]; intros a n H.
  - simpl in H. destruct a, n; simpl; auto; lia.
  - destruct a as [|a].
    + destruct n as [|n]; [reflexivity|].
      cbn [substring String.length]. f_equal. apply IH. simpl in H. lia.
    + cbn [substring]. apply IH. simpl in H. lia.
Qed.

End BNFacts.

(** ** Printing native numbers *)
Module JsNumberFacts.
Import JsNumber.

Lemma to_double_safe x : x < 2 ^ 53 -> to_double x = x.
Proof.
  intros H. unfold to_double. apply N.ltb_lt in H. now rewrite H.
Qed.

Lemma to_double_large x : 2 ^ 53 <= x -> 2 ^ 53 <= to_double x.
Proof.
  intros H. unfold to_double.
  destruct (N.ltb_spec x (2 ^ 53)) as [Hlt|_]; [lia|]. cbv zeta.
  assert (53 <= N.log2 x) as Hlog by (apply N.log2_le_pow2; lia).
  set (e := N.log2 x - 52).
  assert (2 ^ 52 <= x / 2 ^ e) as Hq.
  { apply N.div_le_lower_bound; [apply N.pow_nonzero; lia|].
    rewrite <- N.pow_add_r. replace (e + 52) with (N.log2 x) by lia.
    apply N.log2_spec. lia. }
  assert (2 <= 2 ^ e) as He.
  { change 2 with (2 ^ 1) at 1. apply N.pow_le_mono_r; lia. }
  set (q := x / 2 ^ e) in *.
  assert (q <= (if x mod 2 ^ e <? 2 ^ (e - 1) then q
                else if 2 ^ (e - 1) <? x mod 2 ^ e then q + 1
                else if N.even q then q else q + 1)) as Hq'
    by (repeat match goal with |- context [if ?c then _ else _] => destruct c end; lia).
  change (2 ^ 53) with (2 ^ 52 * 2). nia.
Qed.

(** A candidate that reads back as the safe integer [v] is [v]. *)
Lemma to_double_eq_safe c v : v < 2 ^ 53 -> to_double c = v -> c = v.
Proof.
  intros Hv Hc. destruct (N.lt_ge_cases c (2 ^ 53)) as [H|H].
  - now rewrite to_double_safe in Hc.
  - pose proof (to_double_large c H). lia.
Qed.

Lemma shortest_from_safe steps :
  forall unit v, v < 2 ^ 53 -> shortest_from steps unit v = v.
Proof.
  induction steps as [|steps IH]; intros unit v Hv; cbn [shortest_from]; [reflexivity|].
  cbv zeta.
  destruct (N.eqb_spec (to_double (v / unit * unit)) v) as [E1|E1];
    destruct (N.eqb_spec (to_double (v / unit * unit + unit)) v) as [E2|E2];
    cbn [andb];
    try apply (to_double_eq_safe _ _ Hv) in E1;
    try apply (to_double_eq_safe _ _ Hv) in E2.
  - match goal with |- context [if ?c then _ else _] => destruct c end; assumption.
  - assumption.
  - assumption.
  - now apply IH.
Qed.

(** A safe integer prints as itself. *)
Lemma toString_safe n :
  n <= MAX_SAFE_INTEGER -> toString n = Some (BN.to_decimal n).
Proof.
  unfold MAX_SAFE_INTEGER. intros Hn.
  assert (n < 2 ^ 53) as Hlt by (change (2 ^ 53 - 1) with 9007199254740991 in Hn;
                                 change (2 ^ 53) with 9007199254740992; lia).
  unfold toString. rewrite (to_double_safe n Hlt).
  assert ((n <? 10 ^ 21) = true) as ->.
  { apply N.ltb_lt. change (2 ^ 53) with 9007199254740992 in Hlt.
    change (10 ^ 21) with 1000000000000000000000. lia. }
  unfold shortest. now rewrite shortest_from_safe.
Qed.

End JsNumberFacts.

(** ** The exit queue *)
Module ExitQueueFacts.
Import BN BNFacts ExitQueue.

Lemma decodePriority_entry p : decodePriority p = Some (entry_of p).
Proof.
  unfold decodePriority. rewrite of_to_decimal. reflexivity.
Qed.

Lemma mapM_decodePriority l : mapM decodePriority l = Some (map entry_of l).
Proof.
  induction l as [|p l IH]; simpl; [reflexivity|].
  rewrite decodePriority_entry, IH. reflexivity.
Qed.

(** The number read from the first [k] digits of a 256-digit rendering. *)
Lemma high_digits k p :
  p < 2 ^ 256 -> (k <= 256)%nat ->
  of_binary (substring 0 k (to_binary 256 p)) = p / 2 ^ N.of_nat (256 - k).
Proof.
  intros Hp Hk.
  pose proof (to_binary_256_length p Hp) as Hlen.
  pose proof (substring_split k (to_binary 256 p) ltac:(lia)) as Hsplit.
  pose proof (of_binary_to_binary 256 p) as Hval.
  rewrite <- Hsplit, of_binary_app, Hlen in Hval.
  rewrite substring_length in Hval by lia.
  pose proof (bin_acc_bound (substring k (256 - k) (to_binary 256 p))) as Hb.
  rewrite substring_length in Hb by lia. fold (of_binary (substring k (256 - k) (to_binary 256 p))) in Hb.
  eapply N.div_unique with (r := of_binary (substring k (256 - k) (to_binary 256 p))); [exact Hb|].
  lia.
Qed.

(** The number read from the digits after the first [k]. *)
Lemma low_digits k p :
  p < 2 ^ 256 -> (k <= 256)%nat ->
  of_binary (substring k (256 - k) (to_binary 256 p)) = p mod 2 ^ N.of_nat (256 - k).
Proof.
  intros Hp Hk.
  pose proof (to_binary_256_length p Hp) as Hlen.
  pose proof (substring_split k (to_binary 256 p) ltac:(lia)) as Hsplit.
  pose proof (of_binary_to_binary 256 p) as Hval.
  rewrite <- Hsplit, of_binary_app, Hlen in Hval.
  rewrite substring_length in Hval by lia.
  pose proof (bin_acc_bound (substring k (256 - k) (to_binary 256 p))) as Hb.
  rewrite substring_length in Hb by lia. fold (of_binary (substring k (256 - k) (to_binary 256 p))) in Hb.
  eapply N.mod_unique with (q := of_binary (substring 0 k (to_binary 256 p))); [exact Hb|].
  lia.
Qed.

(** C5. For a 256-bit unsigned [p] the decoder renders [p] as exactly 256
    binary digits, most significant first and zero-padded on the left (the
    rendering reads back as [p]); [exitableAt] is the unsigned number in
    digits 0..41, that is [p / 2^214], and [exitId] the unsigned number in
    digits 96..255, that is [p mod 2^160], both returned in decimal. The
    value with 1600000000 in the first 42 digits and 42 in the last 160
    decodes to exitableAt 1600000000 and exitId 42. *)
Theorem decodePriority_layout (p : N) (Hp : p < 2 ^ 256) :
  String.length (to_binary 256 p) = 256%nat /\
  of_binary (to_binary 256 p) = p /\
  decodePriority p =
    Some (mkExitEntry (to_decimal p)
                      (to_decimal (p / 2 ^ 214))
                      (to_decimal (p mod 2 ^ 160))) /\
  decodePriority (1600000000 * 2 ^ 214 + 42) =
    Some (mkExitEntry (to_decimal (1600000000 * 2 ^ 214 + 42))
                      "1600000000" "42").
Proof.
  split; [now apply to_binary_256_length|].
  split; [apply of_binary_to_binary|].
  split.
  - rewrite decodePriority_entry. unfold entry_of. cbv zeta.
    rewrite (high_digits 42 p Hp) by lia.
    change (substring 96 160) with (substring 96 (256 - 96)).
    rewrite (low_digits 96 p Hp) by lia.
    reflexivity.
  - vm_compute. reflexivity.
Qed.

Lemma decodePriority_layout_witness :
  3 * 2 ^ 214 + 7 < 2 ^ 256 /\
  decodePriority (3 * 2 ^ 214 + 7) =
    Some (mkExitEntry (to_decimal (3 * 2 ^ 214 + 7)) "3" "7").
Proof.
  split; [vm_compute; reflexivity|].
  pose proof (decodePriority_layout (3 * 2 ^ 214 + 7) ltac:(vm_compute; reflexivity))
    as (_ & _ & H & _).
  rewrite H. vm_compute. reflexivity.
Defined.

(** C6. An empty (or absent) raw heap list gives the empty list. A non-empty
    one loses exactly its first element; every other element is decoded, each
    one by [decodePriority], and the results keep the order of the heap
    list. A sentinel followed by one priority gives exactly one entry. *)
Theorem getExitQueue_drops_sentinel :
  getExitQueue (Some []) = Some [] /\
  getExitQueue None = Some [] /\
  (forall sentinel rest,
      getExitQueue (Some (sentinel :: rest)) = Some (map entry_of rest) /\
      List.length (map entry_of rest) = List.length rest /\
      forall i p, nth_error rest i = Some p ->
                  nth_error (map entry_of rest) i = Some (entry_of p) /\
                  decodePriority p = Some (entry_of p)) /\
  (forall sentinel p,
      getExitQueue (Some [sentinel; p]) = Some [entry_of p]).
Proof.
  split; [reflexivity|]. split; [reflexivity|]. split.
  - intros sentinel rest. split; [|split].
    + cbn [getExitQueue List.length Nat.eqb negb skipn].
      apply mapM_decodePriority.
    + apply length_map.
    + intros i p Hi. split; [|apply decodePriority_entry].
      rewrite nth_error_map, Hi. reflexivity.
  - intros sentinel p. cbn [getExitQueue List.length Nat.eqb negb skipn].
    apply mapM_decodePriority.
Qed.

End ExitQueueFacts.

(** ** Exit scheduling *)
Module ExitTimeFacts.
Import ExitTime.
Local Open Scope Z_scope.

Lemma getExitTime_available w a blk :
  getBlock w (exitRequestBlockNumber a) = Some blk ->
  getExitTime w a [] =
    (inr (mkResult
            (scheduled a (timestamp blk)
                       (timestamp (blocks w (submissionBlockNumber a)))
                       (minExitPeriod w) + 5)
            ((scheduled a (timestamp blk)
                        (timestamp (blocks w (submissionBlockNumber a)))
                        (minExitPeriod w) + 5 - (clock_ms w + 500) / 1000) * 1000)),
     [CallMinExitPeriod; CallGetBlock (exitRequestBlockNumber a);
      CallBlocks (submissionBlockNumber a)]).
Proof.
  intros Hblk. unfold getExitTime, scheduled, spec_elevated, bind, perform, ret.
  cbn [app]. rewrite Hblk. cbn [timestamp_of].
  destruct (multiple_of_1000 (submissionBlockNumber a)); cbn [negb];
    unfold ret, bufferSeconds; do 2 f_equal; f_equal; lia.
Qed.

(** Up to 2^53 - 1 the Number of a block number is the block number, and
    the test is the exact remainder. *)
Lemma multiple_of_1000_safe n :
  (n <= JsNumber.MAX_SAFE_INTEGER)%N ->
  multiple_of_1000 n = (Z.of_N n mod 1000 =? 0).
Proof.
  unfold JsNumber.MAX_SAFE_INTEGER. intros Hn.
  assert (n < 2 ^ 53)%N as Hlt
    by (change (2 ^ 53 - 1)%N with 9007199254740991%N in Hn;
        change (2 ^ 53)%N with 9007199254740992%N; lia).
  unfold multiple_of_1000, JsNumber.is_finite.
  rewrite (JsNumberFacts.to_double_safe n Hlt).
  assert ((n <? 2 ^ 1024)%N = true) as ->; [|reflexivity].
  apply N.ltb_lt. apply (N.lt_trans _ (2 ^ 53)); [exact Hlt|].
  apply N.pow_lt_mono_r; lia.
Qed.

(** C7, as amended. With the exit-request block at hand, [getExitTime]
    returns [scheduledFinalizationTime] equal to
    [max(exitRequestBlock.timestamp, submissionBlock.timestamp) + minExitPeriod]
    when [submissionBlockNumber] is not a multiple of 1000, and to
    [max(exitRequestBlock.timestamp + minExitPeriod,
         submissionBlock.timestamp + 2*minExitPeriod)] when it is, plus the
    5-second buffer in both cases. The test is the one the code makes, on
    the Number of the block number; for block numbers up to 2^53 - 1 it is
    the exact remainder. *)
Theorem getExitTime_schedule (w : World) (a : Args) (blk : Block)
  (Hblk : getBlock w (exitRequestBlockNumber a) = Some blk) :
  exists r,
    fst (getExitTime w a []) = inr r /\
    let exitTs := timestamp blk in
    let subTs := timestamp (blocks w (submissionBlockNumber a)) in
    let period := minExitPeriod w in
    (multiple_of_1000 (submissionBlockNumber a) = false ->
     scheduledFinalizationTime r = Z.max exitTs subTs + period + 5) /\
    (multiple_of_1000 (submissionBlockNumber a) = true ->
     scheduledFinalizationTime r =
       Z.max (exitTs + period) (subTs + 2 * period) + 5) /\
    ((submissionBlockNumber a <= JsNumber.MAX_SAFE_INTEGER)%N ->
     (Z.of_N (submissionBlockNumber a) mod 1000 <> 0 ->
      scheduledFinalizationTime r = Z.max exitTs subTs + period + 5) /\
     (Z.of_N (submissionBlockNumber a) mod 1000 = 0 ->
      scheduledFinalizationTime r =
        Z.max (exitTs + period) (subTs + 2 * period) + 5)).
Proof.
  rewrite (getExitTime_available w a blk Hblk). eexists. split; [reflexivity|].
  cbn [scheduledFinalizationTime]. unfold scheduled, spec_elevated.
  split; [|split].
  - intros H. rewrite H. reflexivity.
  - intros H. rewrite H. reflexivity.
  - intros Hsafe. rewrite (multiple_of_1000_safe _ Hsafe). split; intros H.
    + apply Z.eqb_neq in H. rewrite H. reflexivity.
    + apply Z.eqb_eq in H. rewrite H. reflexivity.
Qed.

Lemma getExitTime_schedule_witness :
  exists r,
    fst (getExitTime sample_world (mkArgs 7 1000 10) []) = inr r /\
    scheduledFinalizationTime r = 115.
Proof.
  destruct (getExitTime_schedule sample_world (mkArgs 7 1000 10) (mkBlock 100)
              eq_refl) as (r & Hr & _ & _ & H).
  exists r. split; [exact Hr|].
  destruct H as [_ H]; [vm_compute; discriminate|].
  rewrite H by reflexivity. reflexivity.
Defined.

(** C7, as the specification words it, fails on a multiple of 1000: with the
    exit-request block at time 100, the submission block 1000 at time 0 and
    a period of 10, the code answers 115 where the specification's
    [max(100, 0 + 2*10) + 5] is 105. And the test is made on a Number: the
    block number 72057594037929000, a multiple of 1000, is the double
    72057594037928992 to the code, which schedules it as a non-multiple
    (1600604855, where the formula for multiples gives 1601209605). *)
Lemma getExitTime_regular_counterexample :
  exists r r',
    fst (getExitTime sample_world (mkArgs 7 1000 10) []) = inr r /\
    Z.of_N 1000 mod 1000 = 0 /\
    scheduledFinalizationTime r = 115 /\
    spec_regular 100 0 10 + 5 = 105 /\
    scheduledFinalizationTime r <> spec_regular 100 0 10 + 5 /\
    fst (getExitTime (there_at_third 2) (mkArgs 123 72057594037929000 0) []) = inr r' /\
    Z.of_N 72057594037929000 mod 1000 = 0 /\
    JsNumber.to_double 72057594037929000 = 72057594037928992%N /\
    scheduledFinalizationTime r' = 1600604855 /\
    Z.max (1600000050 + 604800) (1600000000 + 2 * 604800) + 5 = 1601209605.
Proof.
  do 2 eexists. split; [reflexivity|].
  split; [reflexivity|]. split; [reflexivity|]. split; [reflexivity|].
  split; [cbn; discriminate|].
  split; [vm_compute; reflexivity|].
  repeat split; vm_compute; reflexivity.
Qed.

(** *** The missing exit-request block *)

(** With retries left, a missing block sets the timer and then, in the same
    invocation, runs into the null block. *)
Lemma getExitTime_missing_retry w a :
  getBlock w (exitRequestBlockNumber a) = None ->
  0 < retries a ->
  getExitTime w a [] =
    (inl null_timestamp,
     [CallMinExitPeriod; CallGetBlock (exitRequestBlockNumber a);
      SetTimeout (mkArgs (exitRequestBlockNumber a) (submissionBlockNumber a)
                         (retries a - 1)) 5000;
      CallBlocks (submissionBlockNumber a)]).
Proof.
  intros Hblk Hr. unfold getExitTime, bind, perform, ret.
  cbn [app]. rewrite Hblk.
  apply Z.gtb_lt in Hr. rewrite Hr. cbn [app timestamp_of].
  destruct (negb _); reflexivity.
Qed.

Lemma getExitTime_missing_exhausted w a :
  getBlock w (exitRequestBlockNumber a) = None ->
  retries a <= 0 ->
  getExitTime w a [] =
    (inl (Error ("Could not get exit request block data: "
                 ++ BN.to_decimal (exitRequestBlockNumber a))),
     [CallMinExitPeriod; CallGetBlock (exitRequestBlockNumber a)]).
Proof.
  intros Hblk Hr. unfold getExitTime, bind, perform, ret, throw.
  cbn [app]. rewrite Hblk.
  destruct (retries a >? 0) eqn:E; [apply Z.gtb_lt in E; lia|]. reflexivity.
Qed.

(** C8 at the failing input (exit-request block 123 unknown, default
    retries 10). The caller's invocation sets a 5000 ms timer for a retry
    with 9 retries left and then throws the TypeError of reading
    [timestamp] of the null block: the caller sees the failure at once and
    it does not name the block. The retries run detached: ten invocations
    throw that TypeError and only the eleventh throws the error naming
    block 123. When the block appears at the third invocation, the caller
    has already failed and the computed result belongs to a detached
    invocation. *)
Theorem getExitTime_missing_block :
  let a := mkArgs 123 1001 10 in
  getExitTime (never_there 0) a [] =
    (inl null_timestamp,
     [CallMinExitPeriod; CallGetBlock 123;
      SetTimeout (mkArgs 123 1001 9) 5000; CallBlocks 1001]) /\
  map fst (invocations 100 never_there 0 a) =
    repeat (inl null_timestamp) 10 ++
    [inl (Error "Could not get exit request block data: 123")] /\
  map fst (invocations 100 there_at_third 0 a) =
    [inl null_timestamp; inl null_timestamp;
     inr (mkResult 1600604855 604755000)].
Proof.
  cbv zeta. split; [|split]; vm_compute; reflexivity.
Qed.

End ExitTimeFacts.

(** ** The memoised exit-game handle *)
Module HandlesFacts.
Import Handles.




















End HandlesFacts.

(** ** Merging UTXOs *)
Module MergeFacts.
Import Merge.
Local Open Scope Z_scope.

Section Uniq.
Context {A K : Type} (eqb : K -> K -> bool) (f : A -> K).
Hypothesis eqb_spec : forall x y, eqb x y = true <-> x = y.

Lemma existsb_eqb_In k seen : existsb (eqb k) seen = true <-> In k seen.
Proof.
  rewrite existsb_exists. split.
  - intros (y & Hy & E). apply eqb_spec in E. now subst.
  - intros H. exists k. split; [exact H | now apply eqb_spec].
Qed.

(** Nothing survives exactly when every key has been seen. *)
Lemma uniqBy_from_nil seen l :
  uniqBy_from eqb f seen l = [] <-> forall x, In x l -> In (f x) seen.
Proof.
  revert seen. induction l as [|x xs IH]; intros seen; simpl.
  - split; [intros _ y []| reflexivity].
  - destruct (existsb (eqb (f x)) seen) eqn:E.
    + apply existsb_eqb_In in E. rewrite IH. split.
      * intros H y [<-|Hy]; auto.
      * intros H y Hy. apply H. now right.
    + split; [discriminate|]. intros H.
      assert (In (f x) seen) as Hin by (apply H; now left).
      apply existsb_eqb_In in Hin. congruence.
Qed.

(** One survivor exactly when the list is not empty and has one key. *)
Lemma uniqBy_one l :
  List.length (uniqBy eqb f l) = 1%nat <->
  exists x xs, l = x :: xs /\ forall y, In y xs -> f y = f x.
Proof.
  unfold uniqBy. destruct l as [|x xs]; simpl.
  - split; [discriminate|]. intros (x & xs & H & _). discriminate.
  - split.
    + intros H. exists x, xs. split; [reflexivity|].
      assert (uniqBy_from eqb f [f x] xs = []) as Hnil
        by (destruct (uniqBy_from eqb f [f x] xs); [reflexivity | simpl in H; lia]).
      intros y Hy. rewrite uniqBy_from_nil in Hnil.
      destruct (Hnil y Hy) as [E|[]]. now symmetry.
    + intros (x' & xs' & E & H). injection E as <- <-.
      assert (uniqBy_from eqb f [f x] xs = []) as ->; [|reflexivity].
      apply uniqBy_from_nil. intros y Hy. left. symmetry. now apply H.
Qed.

End Uniq.

Lemma string_eqb_spec (x y : string) : String.eqb x y = true <-> x = y.
Proof. apply String.eqb_eq. Qed.

Lemma one_key_or_mixed {Amount} (f : Utxo Amount -> string) utxos :
  utxos <> [] ->
  (List.length (uniqBy String.eqb f utxos) = 1%nat <-> ~ mixed f utxos).
Proof.
  intros Hne. rewrite (uniqBy_one String.eqb f string_eqb_spec). split.
  - intros (x & xs & -> & H) (u & v & Hu & Hv & Huv). apply Huv.
    assert (forall y, In y (x :: xs) -> f y = f x) as H'
      by (intros y [<-|Hy]; auto).
    now rewrite (H' u Hu), (H' v Hv).
  - intros Hm. destruct utxos as [|x xs]; [congruence|].
    exists x, xs. split; [reflexivity|]. intros y Hy.
    destruct (String.string_dec (f y) (f x)) as [E|E]; [exact E|].
    exfalso. apply Hm. exists y, x. simpl; auto.
Qed.

Lemma several_keys_mixed {Amount} (f : Utxo Amount -> string) utxos :
  utxos <> [] ->
  List.length (uniqBy String.eqb f utxos) <> 1%nat -> mixed f utxos.
Proof.
  intros Hne Hlen. destruct utxos as [|x xs]; [congruence|].
  destruct (Forall_Exists_dec (fun y => f y = f x)
              (fun y => String.string_dec (f y) (f x)) xs) as [Hall|Hex].
  - exfalso. apply Hlen.
    apply (uniqBy_one String.eqb f string_eqb_spec). exists x, xs.
    split; [reflexivity|]. now apply Forall_forall.
  - apply Exists_exists in Hex as (y & Hy & Hneq).
    exists y, x. simpl. auto.
Qed.

Lemma shared_not_mixed {Amount K} (f : Utxo Amount -> K) utxos k :
  (forall u, In u utxos -> f u = k) -> ~ mixed f utxos.
Proof.
  intros H (u & v & Hu & Hv & Huv). apply Huv. now rewrite (H u Hu), (H v Hv).
Qed.

Lemma not_mixed_head {Amount} (f : Utxo Amount -> string) u0 rest u :
  ~ mixed f (u0 :: rest) -> In u (u0 :: rest) -> f u = f u0.
Proof.
  intros Hm Hu. destruct (String.string_dec (f u) (f u0)) as [E|E]; [exact E|].
  exfalso. apply Hm. exists u, u0. simpl; auto.
Qed.

Section Conversion.
Context {Amount E : Type} (numberToBN : Amount -> E + Z).

Lemma accepted_or_rejected u : accepted numberToBN u \/ rejected numberToBN u.
Proof.
  unfold accepted, rejected. destruct (numberToBN (amount u)); eauto.
Qed.

Lemma accepted_not_rejected u : accepted numberToBN u -> ~ rejected numberToBN u.
Proof. intros [v Hv] [e He]. congruence. Qed.

Lemma all_accepted_or_one_rejected utxos :
  Forall (accepted numberToBN) utxos \/ Exists (rejected numberToBN) utxos.
Proof.
  induction utxos as [|u us [IH|IH]]; auto.
  destruct (accepted_or_rejected u); auto.
Qed.

Lemma all_accepted_none_rejected utxos :
  Forall (accepted numberToBN) utxos -> ~ Exists (rejected numberToBN) utxos.
Proof.
  intros Hall Hex. apply Exists_exists in Hex as (u & Hu & Hr).
  rewrite Forall_forall in Hall. exact (accepted_not_rejected u (Hall u Hu) Hr).
Qed.

(** The reduction gives the sum when every amount is converted, and throws
    when one is not. *)
Lemma reduce_amounts_accepted utxos :
  Forall (accepted numberToBN) utxos ->
  forall prev, reduce_amounts numberToBN utxos prev = inr (prev + total numberToBN utxos).
Proof.
  unfold total. induction 1 as [|u us [v Hv] _ IH]; intros prev; cbn [reduce_amounts map fold_right].
  - f_equal. lia.
  - unfold value_of at 1. rewrite Hv, IH. f_equal. lia.
Qed.

Lemma reduce_amounts_rejected utxos :
  Exists (rejected numberToBN) utxos ->
  forall prev, exists e, reduce_amounts numberToBN utxos prev = inl e.
Proof.
  induction 1 as [u us [e He]|u us _ IH]; intros prev; cbn [reduce_amounts].
  - rewrite He. eauto.
  - destruct (numberToBN (amount u)); eauto.
Qed.

(** When the merge succeeds, and with what. *)
Lemma merge_succeeds_iff utxos out :
  mergeUtxosToOutput numberToBN utxos = inr out <->
  (2 <= List.length utxos <= 4)%nat /\
  ~ mixed currency utxos /\ ~ mixed owner utxos /\
  Forall (accepted numberToBN) utxos /\
  exists u0 rest,
    utxos = u0 :: rest /\
    out = mkOutput 1 (owner u0) (currency u0) (total numberToBN utxos).
Proof.
  unfold mergeUtxosToOutput.
  destruct (Nat.ltb_spec (List.length utxos) 2) as [H2|H2].
  { split; [discriminate | intros [? _]; lia]. }
  destruct (Nat.ltb_spec 4 (List.length utxos)) as [H4|H4].
  { split; [discriminate | intros [? _]; lia]. }
  assert (utxos <> []) as Hne by (intros ->; simpl in H2; lia).
  pose proof (one_key_or_mixed currency utxos Hne) as Hc.
  pose proof (one_key_or_mixed owner utxos Hne) as Ho.
  destruct (Nat.eqb_spec (List.length (uniqBy String.eqb currency utxos)) 1)
    as [Ec|Ec]; cbn [negb].
  2:{ split; [discriminate|]. intros (_ & Hm & _). exfalso.
      apply Hm. now apply several_keys_mixed. }
  destruct (Nat.eqb_spec (List.length (uniqBy String.eqb owner utxos)) 1)
    as [Eo|Eo]; cbn [negb].
  2:{ split; [discriminate|]. intros (_ & _ & Hm & _). exfalso.
      apply Hm. now apply several_keys_mixed. }
  destruct utxos as [|u0 us]; [congruence|].
  destruct (all_accepted_or_one_rejected (u0 :: us)) as [Hall|Hex].
  - rewrite (reduce_amounts_accepted _ Hall). cbn [Z.add]. split.
    + intros [= <-]. split; [lia|]. split; [now apply Hc|]. split; [now apply Ho|].
      split; [exact Hall|]. exists u0, us. split; reflexivity.
    + intros (_ & _ & _ & _ & u & rest & [= <- <-] & ->). reflexivity.
  - destruct (reduce_amounts_rejected _ Hex 0) as [e ->]. split; [discriminate|].
    intros (_ & _ & _ & Hall & _). exfalso.
    exact (all_accepted_none_rejected _ Hall Hex).
Qed.

(** When the merge throws an error of its own, and which. *)
Lemma merge_error_iff utxos msg :
  mergeUtxosToOutput numberToBN utxos = inl (Error msg) <->
  ((List.length utxos < 2)%nat /\ msg = "Must merge at least 2 utxos"%string) \/
  ((List.length utxos > 4)%nat /\ msg = "Cannot merge more than 4 utxos"%string) \/
  ((2 <= List.length utxos <= 4)%nat /\ mixed currency utxos /\
   msg = "All utxo currency must be the same"%string) \/
  ((2 <= List.length utxos <= 4)%nat /\ ~ mixed currency utxos /\ mixed owner utxos /\
   msg = "All utxo owner must be the same"%string).
Proof.
  unfold mergeUtxosToOutput.
  destruct (Nat.ltb_spec (List.length utxos) 2) as [H2|H2].
  { split.
    - intros [= <-]. auto.
    - intros [[_ ->]|[[? _]|[[? _]|[? _]]]]; [reflexivity|lia..]. }
  destruct (Nat.ltb_spec 4 (List.length utxos)) as [H4|H4].
  { split.
    - intros [= <-]. auto.
    - intros [[? _]|[[_ ->]|[[? _]|[? _]]]]; [lia|reflexivity|lia..]. }
  assert (utxos <> []) as Hne by (intros ->; simpl in H2; lia).
  pose proof (one_key_or_mixed currency utxos Hne) as Hc.
  pose proof (one_key_or_mixed owner utxos Hne) as Ho.
  destruct (Nat.eqb_spec (List.length (uniqBy String.eqb currency utxos)) 1)
    as [Ec|Ec]; cbn [negb].
  2:{ pose proof (several_keys_mixed currency utxos Hne Ec) as Hm. split.
      - intros [= <-]. right. right. left. repeat split; auto; lia.
      - intros [[? _]|[[? _]|[(_ & _ & ->)|(_ & Hn & _)]]];
          [lia|lia|reflexivity|contradiction]. }
  destruct (Nat.eqb_spec (List.length (uniqBy String.eqb owner utxos)) 1)
    as [Eo|Eo]; cbn [negb].
  2:{ pose proof (several_keys_mixed owner utxos Hne Eo) as Hm. split.
      - intros [= <-]. right. right. right. repeat split; auto; try lia.
        now apply Hc.
      - intros [[? _]|[[? _]|[(_ & Hn & _)|(_ & _ & _ & ->)]]];
          [lia|lia| |reflexivity].
        exfalso. now apply Hc. }
  destruct utxos as [|u0 us]; [congruence|]. split.
  - destruct (reduce_amounts numberToBN (u0 :: us) 0); discriminate.
  - intros [[? _]|[[? _]|[(_ & Hn & _)|(_ & _ & Hn & _)]]]; try lia; exfalso.
    + now apply Hc.
    + now apply Ho.
Qed.

(** The error of a conversion is thrown when the four tests pass and an
    amount is refused. *)
Lemma merge_thrown_iff utxos :
  (exists e, mergeUtxosToOutput numberToBN utxos = inl (Thrown e)) <->
  (2 <= List.length utxos <= 4)%nat /\
  ~ mixed currency utxos /\ ~ mixed owner utxos /\
  Exists (rejected numberToBN) utxos.
Proof.
  split.
  - intros [e He].
    destruct (Nat.lt_ge_cases (List.length utxos) 2) as [H2|H2].
    { assert (mergeUtxosToOutput numberToBN utxos = inl (Error "Must merge at least 2 utxos"))
        as H by (apply merge_error_iff; auto). congruence. }
    destruct (Nat.lt_ge_cases 4 (List.length utxos)) as [H4|H4].
    { assert (mergeUtxosToOutput numberToBN utxos = inl (Error "Cannot merge more than 4 utxos"))
        as H by (apply merge_error_iff; auto). congruence. }
    assert (utxos <> []) as Hne by (intros ->; simpl in H2; lia).
    assert (~ mixed currency utxos) as Hc.
    { intros Hm.
      assert (mergeUtxosToOutput numberToBN utxos =
              inl (Error "All utxo currency must be the same"))
        as H by (apply merge_error_iff; right; right; left; auto). congruence. }
    assert (~ mixed owner utxos) as Ho.
    { intros Hm.
      assert (mergeUtxosToOutput numberToBN utxos =
              inl (Error "All utxo owner must be the same"))
        as H by (apply merge_error_iff; right; right; right; auto). congruence. }
    repeat split; auto.
    destruct (all_accepted_or_one_rejected utxos) as [Hall|Hex]; [|exact Hex].
    destruct utxos as [|u0 us]; [congruence|].
    assert (mergeUtxosToOutput numberToBN (u0 :: us) =
            inr (mkOutput 1 (owner u0) (currency u0) (total numberToBN (u0 :: us)))) as H.
    { apply merge_succeeds_iff. repeat split; auto. eauto. }
    congruence.
  - intros (Hlen & Hc & Ho & Hex).
    destruct (mergeUtxosToOutput numberToBN utxos) as [[msg|e]|out] eqn:Em.
    + exfalso. apply merge_error_iff in Em.
      destruct Em as [[? _]|[[? _]|[(_ & Hm & _)|(_ & _ & Hm & _)]]];
        [lia|lia|contradiction|contradiction].
    + eauto.
    + exfalso. apply merge_succeeds_iff in Em as (_ & _ & _ & Hall & _).
      exact (all_accepted_none_rejected _ Hall Hex).
Qed.

End Conversion.

(** number-to-bn takes a BN at its value and a Number up to 2^53 - 1 at
    its value. *)
Lemma number_to_bn_exact :
  (forall n, (n <= JsNumber.MAX_SAFE_INTEGER)%N ->
             number_to_bn (Integer n) = inr (Z.of_N n)) /\
  (forall z, number_to_bn (BigNumber z) = inr z).
Proof.
  split; [|reflexivity]. intros n Hn. unfold number_to_bn.
  rewrite (JsNumberFacts.toString_safe n Hn), BNFacts.of_to_decimal. reflexivity.
Qed.

(** C10, as amended. [mergeUtxosToOutput] throws exactly when the list has
    fewer than 2 elements, more than 4, two elements of different
    currency, two of different owner, or an amount that [numberToBN]
    refuses. For 2 to 4 UTXOs that all have currency [c] and owner [o] and
    amounts [numberToBN] converts, it returns the output of type 1 guarded
    by [o], in currency [c], whose amount is the sum of the converted
    amounts. The converted amount is the amount itself for a BN and for a
    Number up to 2^53 - 1. *)
Theorem mergeUtxosToOutput_spec {Amount E : Type} (numberToBN : Amount -> E + Z)
  (utxos : list (Utxo Amount)) :
  (throws (mergeUtxosToOutput numberToBN utxos) <->
   (List.length utxos < 2)%nat \/ (List.length utxos > 4)%nat \/
   mixed currency utxos \/ mixed owner utxos \/
   Exists (rejected numberToBN) utxos) /\
  (forall c o,
      (2 <= List.length utxos <= 4)%nat ->
      (forall u, In u utxos -> currency u = c) ->
      (forall u, In u utxos -> owner u = o) ->
      Forall (accepted numberToBN) utxos ->
      mergeUtxosToOutput numberToBN utxos =
        inr (mkOutput 1 o c (total numberToBN utxos))) /\
  (forall n, (n <= JsNumber.MAX_SAFE_INTEGER)%N ->
             number_to_bn (Integer n) = inr (Z.of_N n)) /\
  (forall z, number_to_bn (BigNumber z) = inr z).
Proof.
  split; [|split; [|exact number_to_bn_exact]].
  - unfold throws. split.
    + intros [e He].
      destruct (Nat.lt_ge_cases (List.length utxos) 2) as [H2|H2]; [auto|].
      destruct (Nat.lt_ge_cases 4 (List.length utxos)) as [H4|H4]; [auto|].
      destruct e as [msg|e].
      * apply merge_error_iff in He.
        destruct He as [[? _]|[[? _]|[(_ & Hm & _)|(_ & _ & Hm & _)]]]; auto.
      * assert (exists e, mergeUtxosToOutput numberToBN utxos = inl (Thrown e)) as Ht
          by eauto.
        apply merge_thrown_iff in Ht as (_ & _ & _ & Hex). auto 6.
    + intros Hcase.
      destruct (mergeUtxosToOutput numberToBN utxos) as [e|out] eqn:Em; [eauto|].
      exfalso. apply merge_succeeds_iff in Em as (Hlen & Hc & Ho & Hall & _).
      destruct Hcase as [H|[H|[H|[H|H]]]]; try lia; try contradiction.
      exact (all_accepted_none_rejected _ _ Hall H).
  - intros c o Hlen Hcur Hown Hall. apply merge_succeeds_iff.
    split; [exact Hlen|].
    split; [exact (shared_not_mixed currency utxos c Hcur)|].
    split; [exact (shared_not_mixed owner utxos o Hown)|].
    split; [exact Hall|].
    destruct utxos as [|u0 us]; [simpl in Hlen; lia|].
    exists u0, us. split; [reflexivity|].
    rewrite (Hcur u0), (Hown u0) by (now left). reflexivity.
Qed.

(** C10, as the specification words it, fails on the amounts. Two UTXOs of
    one owner in one currency make the merge throw when an amount is 1.5,
    is 10^21 or is missing: [numberToBN] refuses each of them. And the
    amount returned is not the exact sum for a Number beyond 2^53: the
    doubles 500000000000000128 and 1 are merged to 500000000000000101,
    because a Number is converted from its print, 500000000000000100; the
    same amounts as BN instances give 500000000000000129. *)
Lemma mergeUtxosToOutput_amount_counterexample :
  mergeUtxosToOutput number_to_bn
    [mkUtxo "0xa" "0x0" (Integer 10); mkUtxo "0xa" "0x0" Fractional] =
    inl (Thrown InvalidNumberValue) /\
  mergeUtxosToOutput number_to_bn
    [mkUtxo "0xa" "0x0" (Integer (10 ^ 21)); mkUtxo "0xa" "0x0" (Integer 10)] =
    inl (Thrown InvalidNumberValue) /\
  mergeUtxosToOutput number_to_bn
    [mkUtxo "0xa" "0x0" (Integer 10); mkUtxo "0xa" "0x0" Undefined] =
    inl (Thrown InvalidNumberValue) /\
  JsNumber.to_double 500000000000000128 = 500000000000000128%N /\
  mergeUtxosToOutput number_to_bn
    [mkUtxo "0xa" "0x0" (Integer 500000000000000128); mkUtxo "0xa" "0x0" (Integer 1)] =
    inr (mkOutput 1 "0xa" "0x0" 500000000000000101) /\
  mergeUtxosToOutput number_to_bn
    [mkUtxo "0xa" "0x0" (BigNumber 500000000000000128);
     mkUtxo "0xa" "0x0" (BigNumber 1)] =
    inr (mkOutput 1 "0xa" "0x0" 500000000000000129).
Proof. repeat split; vm_compute; reflexivity. Qed.

(** Two outputs of one owner in one currency, and the cases that throw. *)
Lemma mergeUtxosToOutput_examples :
  mergeUtxosToOutput number_to_bn
    [mkUtxo "0xa" "0x0" (Integer 10); mkUtxo "0xa" "0x0" (BigNumber 32)] =
    inr (mkOutput 1 "0xa" "0x0" 42) /\
  mergeUtxosToOutput number_to_bn [mkUtxo "0xa" "0x0" (Integer 10)] =
    inl (Error "Must merge at least 2 utxos") /\
  mergeUtxosToOutput number_to_bn
    [mkUtxo "0xa" "0x0" (Integer 10); mkUtxo "0xa" "0x1" (Integer 32)] =
    inl (Error "All utxo currency must be the same") /\
  mergeUtxosToOutput number_to_bn
    [mkUtxo "0xa" "0x0" (Integer 10); mkUtxo "0xb" "0x0" (Integer 32)] =
    inl (Error "All utxo owner must be the same") /\
  mergeUtxosToOutput number_to_bn
    [mkUtxo "0xa" "0x0" Fractional; mkUtxo "0xb" "0x0" (Integer 32)] =
    inl (Error "All utxo owner must be the same").
Proof. repeat split; vm_compute; reflexivity. Qed.

End MergeFacts.

(** ** Byte strings and numbers *)
Module BytesFacts.
Import Bytes.

Lemma byte_of_N_to_N n : n < 256 -> Byte.to_N (byte_of_N n) = n.
Proof.
  intros Hn. unfold byte_of_N. destruct (Byte.of_N n) as [b|] eqn:E.
  - now apply Byte.to_of_N.
  - apply Byte.of_N_None_iff in E. lia.
Qed.

Lemma from_le_le_bytes fuel :
  forall n, n < 2 ^ N.of_nat fuel -> from_le (le_bytes fuel n) = n.
Proof.
  induction fuel as [|fuel IH]; intros n Hn.
  - simpl in *. lia.
  - cbn [le_bytes]. destruct (N.eqb_spec n 0) as [->|Hz]; [reflexivity|].
    cbn [from_le]. rewrite byte_of_N_to_N by (apply N.mod_lt; lia).
    rewrite IH.
    + pose proof (N.div_mod' n 256). lia.
    + rewrite Nat2N.inj_succ, N.pow_succ_r' in Hn.
      apply N.Div0.div_lt_upper_bound; lia.
Qed.

Lemma from_be_be_bytes n : from_be (be_bytes n) = n.
Proof.
  unfold from_be, be_bytes. rewrite rev_involutive.
  apply from_le_le_bytes. rewrite N2Nat.id. apply N.size_gt.
Qed.

Lemma le_bytes_length fuel :
  forall n k, n < 256 ^ N.of_nat k -> (List.length (le_bytes fuel n) <= k)%nat.
Proof.
  induction fuel as [|fuel IH]; intros n k Hn; cbn [le_bytes].
  - simpl. lia.
  - destruct (N.eqb_spec n 0) as [->|Hz]; [simpl; lia|].
    destruct k as [|k]; [simpl in Hn; lia|].
    cbn [List.length]. apply le_n_S, IH.
    rewrite Nat2N.inj_succ, N.pow_succ_r' in Hn.
    apply N.Div0.div_lt_upper_bound; lia.
Qed.

Lemma be_bytes_length n k :
  n < 256 ^ N.of_nat k -> (List.length (be_bytes n) <= k)%nat.
Proof.
  intros Hn. unfold be_bytes. rewrite length_rev. now apply le_bytes_length.
Qed.

Lemma be_bytes_nonempty n : 0 < n -> (1 <= List.length (be_bytes n))%nat.
Proof.
  intros Hn. unfold be_bytes. rewrite length_rev.
  destruct n as [|p]; [lia|].
  assert (N.to_nat (N.size (Npos p)) = S (pred (N.to_nat (N.size (Npos p))))) as ->.
  { simpl. pose proof (Pos2Nat.is_pos (Pos.size p)). lia. }
  cbn [le_bytes]. destruct (N.eqb_spec (Npos p) 0); [discriminate|]. simpl. lia.
Qed.

Lemma from_le_app a b :
  from_le (a ++ b) = from_le a + 256 ^ N.of_nat (List.length a) * from_le b.
Proof.
  induction a as [|x a IH]; cbn [app from_le List.length].
  - cbn [N.of_nat]. rewrite N.pow_0_r. lia.
  - rewrite IH, Nat2N.inj_succ, N.pow_succ_r'. lia.
Qed.

Lemma from_le_zeros k : from_le (repeat x00 k) = 0.
Proof. induction k; simpl; [reflexivity|]. rewrite IHk. reflexivity. Qed.

Lemma rev_repeat {A} (x : A) k : rev (repeat x k) = repeat x k.
Proof.
  induction k; simpl; [reflexivity|]. rewrite IHk.
  clear. induction k; simpl; [reflexivity|]. now rewrite IHk.
Qed.

(** Leading zero bytes do not change the number. *)
Lemma from_be_zeros k b : from_be (repeat x00 k ++ b) = from_be b.
Proof.
  unfold from_be. rewrite rev_app_distr, from_le_app, rev_repeat, from_le_zeros. lia.
Qed.

End BytesFacts.

(** ** UTXO positions *)
Module UtxoPosFacts.
Import UtxoPos.

Lemma decode_encode_UtxoPos u :
  txindex u < 100000 -> oindex u < 10000 ->
  decodeUtxoPos (encodeUtxoPos u) = u.
Proof.
  intros Ht Ho. destruct u as [b t o]. cbn [txindex oindex] in *.
  unfold decodeUtxoPos, encodeUtxoPos, BLOCK_OFFSET, TX_OFFSET.
  cbn [blknum txindex oindex].
  assert (t * 10000 + o < 1000000000) as Hlow by lia.
  assert ((b * 1000000000 + t * 10000 + o) / 1000000000 = b) as E1.
  { symmetry. apply N.div_unique with (r := t * 10000 + o); lia. }
  assert ((b * 1000000000 + t * 10000 + o) mod 1000000000 = t * 10000 + o) as E2.
  { symmetry. apply N.mod_unique with (q := b); lia. }
  assert ((t * 10000 + o) / 10000 = t) as E3.
  { symmetry. apply N.div_unique with (r := o); lia. }
  assert ((b * 1000000000 + t * 10000 + o) mod 10000 = o) as E4.
  { symmetry. apply N.mod_unique with (q := b * 100000 + t); lia. }
  rewrite E1, E2, E3, E4. reflexivity.
Qed.

(** C4. For [blknum] in [0, 2^48), [txindex] in [0, 9999] and [oindex] in
    [0, 3], decoding the encoded position gives back the triple; the
    encoding is [blknum*1_000_000_000 + txindex*10_000 + oindex] in exact
    integer arithmetic (the position of a block number near 2^48 is beyond
    64 bits). *)
Theorem decodeUtxoPos_encodeUtxoPos (u : Input)
  (Hb : blknum u < 2 ^ 48) (Ht : txindex u <= 9999) (Ho : oindex u <= 3) :
  decodeUtxoPos (encodeUtxoPos u) = u /\
  encodeUtxoPos u = blknum u * 1000000000 + txindex u * 10000 + oindex u /\
  2 ^ 64 < encodeUtxoPos (mkInput (2 ^ 48 - 1) 9999 3).
Proof.
  split; [apply decode_encode_UtxoPos; lia|].
  split; [reflexivity|]. vm_compute. reflexivity.
Qed.

Lemma decodeUtxoPos_encodeUtxoPos_witness :
  decodeUtxoPos (encodeUtxoPos (mkInput 19774002 10 1)) = mkInput 19774002 10 1 /\
  encodeUtxoPos (mkInput 19774002 10 1) = 19774002000100001.
Proof.
  destruct (decodeUtxoPos_encodeUtxoPos (mkInput 19774002 10 1)) as (H1 & H2 & _).
  - vm_compute; reflexivity.
  - vm_compute; discriminate.
  - vm_compute; discriminate.
  - split; [exact H1 | rewrite H2; reflexivity].
Defined.

End UtxoPosFacts.

(** ** The length-prefixed format: decoding undoes encoding *)
Module RlpFacts.
Import Bytes BytesFacts Rlp.

Lemma take_app a rest : take (N.of_nat (List.length a)) (a ++ rest) = Some (a, rest).
Proof.
  unfold take. rewrite length_app.
  destruct (N.ltb_spec (N.of_nat (List.length a + List.length rest))
                       (N.of_nat (List.length a))) as [H|_]; [lia|].
  rewrite Nat2N.id, firstn_app, skipn_app, firstn_all, skipn_all, Nat.sub_diag.
  simpl. now rewrite app_nil_r.
Qed.

Lemma encode_length_nonempty len offset :
  (1 <= List.length (encode_length len offset))%nat.
Proof.
  unfold encode_length. destruct (len <? 56); simpl; lia.
Qed.

Lemma rlp_encode_nonempty i : (1 <= List.length (rlp_encode i))%nat.
Proof.
  destruct i as [b|l]; cbn [rlp_encode].
  - destruct b as [|x [|y b]].
    + simpl. lia.
    + destruct (Byte.to_N x <? 128); simpl; lia.
    + rewrite length_app.
      pose proof (encode_length_nonempty (N.of_nat (List.length (x :: y :: b))) 128).
      lia.
  - rewrite length_app.
    pose proof (encode_length_nonempty
                  (N.of_nat (List.length (List.concat (map rlp_encode l)))) 192). lia.
Qed.

(** The bytes of a length of at least 56 below 2^64: between 1 and 8. *)
Lemma length_bytes len :
  56 <= len -> len < 2 ^ 64 ->
  (1 <= List.length (be_bytes len) <= 8)%nat /\ from_be (be_bytes len) = len.
Proof.
  intros Hlo Hhi. split; [split|].
  - apply be_bytes_nonempty. lia.
  - apply be_bytes_length. exact Hhi.
  - apply from_be_be_bytes.
Qed.

Ltac decide_ltb :=
  repeat match goal with
         | |- context [?a <? ?b] => destruct (N.ltb_spec a b); try lia
         end.

(** Reading back a byte string that carries its length prefix. *)
Lemma decode_string_prefix b rest fuel :
  N.of_nat (List.length b) < 2 ^ 64 ->
  rlp_decode (S fuel) (encode_length (N.of_nat (List.length b)) 128 ++ b ++ rest) =
    Some (Str b, rest).
Proof.
  intros Hfit. unfold encode_length.
  destruct (N.ltb_spec (N.of_nat (List.length b)) 56) as [Hs|Hl].
  - cbn [app rlp_decode]. rewrite byte_of_N_to_N by lia. cbv zeta.
    decide_ltb.
    replace (N.of_nat (List.length b) + 128 - 128) with (N.of_nat (List.length b)) by lia.
    rewrite take_app. reflexivity.
  - destruct (length_bytes _ Hl Hfit) as [[H1 H8] Hval].
    cbv zeta. cbn [app rlp_decode]. rewrite byte_of_N_to_N by lia. cbv zeta.
    decide_ltb.
    replace (N.of_nat (List.length (be_bytes (N.of_nat (List.length b)))) + 128 + 55 - 183)
      with (N.of_nat (List.length (be_bytes (N.of_nat (List.length b))))) by lia.
    rewrite take_app. cbn [obind fst snd]. rewrite Hval, take_app. reflexivity.
Qed.

(** Reading back a list payload that carries its length prefix, given that
    the payload reads back as the items. *)
Lemma decode_list_prefix payload items rest fuel :
  N.of_nat (List.length payload) < 2 ^ 64 ->
  rlp_decode_list fuel payload = Some items ->
  rlp_decode (S fuel) (encode_length (N.of_nat (List.length payload)) 192 ++ payload ++ rest) =
    Some (Lst items, rest).
Proof.
  intros Hfit Hitems. unfold encode_length.
  destruct (N.ltb_spec (N.of_nat (List.length payload)) 56) as [Hs|Hl].
  - cbn [app rlp_decode]. rewrite byte_of_N_to_N by lia. cbv zeta.
    decide_ltb.
    replace (N.of_nat (List.length payload) + 192 - 192)
      with (N.of_nat (List.length payload)) by lia.
    rewrite take_app. cbn [obind fst snd]. rewrite Hitems. reflexivity.
  - destruct (length_bytes _ Hl Hfit) as [[H1 H8] Hval].
    cbv zeta. cbn [app rlp_decode]. rewrite byte_of_N_to_N by lia. cbv zeta.
    decide_ltb.
    replace (N.of_nat (List.length (be_bytes (N.of_nat (List.length payload)))) + 192 + 55 - 247)
      with (N.of_nat (List.length (be_bytes (N.of_nat (List.length payload))))) by lia.
    rewrite take_app. cbn [obind fst snd]. rewrite Hval, take_app.
    cbn [obind fst snd]. rewrite Hitems. reflexivity.
Qed.

Lemma items_read_back l :
  Forall reads_back l ->
  forall fuel,
    fits (List.concat (map rlp_encode l)) ->
    (2 * List.length (List.concat (map rlp_encode l)) + 1 <= fuel)%nat ->
    rlp_decode_list fuel (List.concat (map rlp_encode l)) = Some l.
Proof.
  induction 1 as [|x xs Hx Hxs IH]; intros fuel Hfit Hfuel.
  - destruct fuel; [simpl in Hfuel; lia | reflexivity].
  - cbn [map List.concat] in *. unfold fits in *. rewrite length_app in *.
    pose proof (rlp_encode_nonempty x) as Hne.
    destruct fuel as [|fuel]; [lia|]. cbn [rlp_decode_list].
    destruct (rlp_encode x ++ List.concat (map rlp_encode xs)) as [|b bs] eqn:E.
    { apply (f_equal (@List.length byte)) in E. rewrite length_app in E. simpl in E. lia. }
    rewrite <- E. rewrite (Hx fuel); [|unfold fits; lia|lia].
    cbn [obind fst snd]. rewrite IH; [reflexivity|lia|lia].
Qed.

(** Decoding undoes encoding, for every item whose encoding fits. *)
Lemma rlp_decode_encode i : reads_back i.
Proof.
  induction i as [b|l IH] using item_nested_ind; intros fuel rest Hfit Hfuel.
  - pose proof (rlp_encode_nonempty (Str b)) as Hne.
    destruct fuel as [|fuel]; [lia|].
    assert (N.of_nat (List.length b) < 2 ^ 64) as Hb.
    { unfold fits in Hfit. cbn [rlp_encode] in Hfit.
      destruct b as [|x [|y b]]; [simpl; lia| |].
      - simpl. lia.
      - rewrite length_app in Hfit. lia. }
    cbn [rlp_encode].
    destruct b as [|x [|y b]].
    + rewrite <- app_assoc. apply decode_string_prefix. exact Hb.
    + destruct (N.ltb_spec (Byte.to_N x) 128) as [Hx|Hx].
      * cbn [app rlp_decode]. cbv zeta.
        apply N.ltb_lt in Hx. rewrite Hx. reflexivity.
      * rewrite <- app_assoc. apply (decode_string_prefix [x]). exact Hb.
    + rewrite <- app_assoc. apply decode_string_prefix. exact Hb.
  - cbn [rlp_encode] in *. cbv zeta in *. unfold fits in Hfit.
    rewrite length_app in Hfit, Hfuel.
    pose proof (encode_length_nonempty
                  (N.of_nat (List.length (List.concat (map rlp_encode l)))) 192) as Hh.
    destruct fuel as [|fuel]; [lia|].
    rewrite <- app_assoc. apply decode_list_prefix; [lia|].
    apply items_read_back; [exact IH|unfold fits; lia|lia].
Qed.

(** A whole input that is the encoding of [i] decodes to [i]. *)
Lemma decode_encode i : fits (rlp_encode i) -> decode (rlp_encode i) = Some i.
Proof.
  intros Hfit. unfold decode.
  rewrite <- (app_nil_r (rlp_encode i)) at 2.
  rewrite rlp_decode_encode; [reflexivity|exact Hfit|lia].
Qed.

End RlpFacts.

(** ** The transaction codec *)
Module TransactionFacts.
Import Bytes BytesFacts Rlp RlpFacts UtxoPos Transaction.

(** The model gives the bytes the transaction test expects. *)
Lemma encode_fixtures :
  encodeHex (test_tx (Native 500000000000000123)) =
    Some "0xf85c01e1a0000000000000000000000000000000000000000000000000004640596164aa00f6f501f394f4ebbe787311bb955bb353b7a4d8b97af8ed1c9b9400000000000000000000000000000000000000008806f05b59d3b200648080"%string /\
  encodeHex test_tx_4x4 =
    Some "0xf9015701f884a0000000000000000000000000000000000000000000000000004640596164aa00a0000000000000000000000000000000000000000000000000004640599cff7400a0000000000000000000000000000000000000000000000000004640599cff7401a0000000000000000000000000000000000000000000000000004640599d00faa0f8ccf501f394f4ebbe787311bb955bb353b7a4d8b97af8ed1c9b940000000000000000000000000000000000000000880de0b6b3a7640000f501f3943272ee86d8192f59261960c9ae186063c8c9041f940000000000000000000000000000000000000000880de0b6b3a7640000f101ef9499d7b5c57c16acb24a327a37356a804a2f75dade9400000000000000000000000000000000000000008405f5e100ed01eb94bfdf85743ef16cfb1f8d4dd1dfc74c51dc496434940000000000000000000000000000000000000000648080"%string /\
  encodeHex (mkTransaction 1 [mkInput 19774001 0 0] [] 0 None) =
    Some "0xe601e1a0000000000000000000000000000000000000000000000000004640596164aa00c08080"%string /\
  encodeDeposit "0x60c5bc2de80acda5016c1e81f61620adbc730dd2"
                (Decimal "1000000000000000000") ETH_CURRENCY =
    Some "0xf85b01c0f6f501f39460c5bc2de80acda5016c1e81f61620adbc730dd2940000000000000000000000000000000000000000880de0b6b3a764000080a00000000000000000000000000000000000000000000000000000000000000000"%string /\
  encodeDeposit "0x60c5bc2de80acda5016c1e81f61620adbc730dd2"
                (Decimal "3000000000000000000000")
                "0000000000000000000000000000000000000000" =
    Some "0xf85c01c0f7f601f49460c5bc2de80acda5016c1e81f61620adbc730dd294000000000000000000000000000000000000000089a2a15d09519be0000080a00000000000000000000000000000000000000000000000000000000000000000"%string /\
  option_map decodeTxBytes (encode (test_tx (Decimal "123"))) =
    Some (Some (mkDecoded 1 [mkInput 19774001 0 0]
                  [mkDecodedOutput 1
                     (address "0xf4ebbe787311bb955bb353b7a4d8b97af8ed1c9b")
                     (address ETH_CURRENCY) "123"]
                  0 (address "0x0000000000000000000000000000000000000000"))).
Proof. repeat split; vm_compute; reflexivity. Qed.

(** C3. The deposit of 333 in the native currency for the owner
    0x854951e37c68a99a52d9e3ae15e0cb62184a613e encodes to the documented
    string, whichever way the amount is written. *)
Theorem encodeDeposit_fixture :
  encodeDeposit "0x854951e37c68a99a52d9e3ae15e0cb62184a613e" (Native 333) ETH_CURRENCY =
    Some "0xf85501c0f0ef01ed94854951e37c68a99a52d9e3ae15e0cb62184a613e94000000000000000000000000000000000000000082014d80a00000000000000000000000000000000000000000000000000000000000000000"%string /\
  encodeDeposit "0x854951e37c68a99a52d9e3ae15e0cb62184a613e" (Decimal "333") ETH_CURRENCY =
    encodeDeposit "0x854951e37c68a99a52d9e3ae15e0cb62184a613e" (Native 333) ETH_CURRENCY /\
  encodeDeposit "0x854951e37c68a99a52d9e3ae15e0cb62184a613e" (Big 333) ETH_CURRENCY =
    encodeDeposit "0x854951e37c68a99a52d9e3ae15e0cb62184a613e" (Native 333) ETH_CURRENCY.
Proof. repeat split; vm_compute; reflexivity. Qed.

(** *** Decoding the encoding of a transaction *)

Lemma decode_input_item i : wf_input i -> decode_input (input_item i) = Some i.
Proof.
  intros [Ht Ho]. unfold decode_input, input_item, pad32.
  rewrite from_be_zeros, from_be_be_bytes.
  rewrite UtxoPosFacts.decode_encode_UtxoPos by lia. reflexivity.
Qed.

Lemma decode_inputs ins :
  Forall wf_input ins -> mapM decode_input (map input_item ins) = Some ins.
Proof.
  induction 1 as [|i ins Hi _ IH]; cbn [map mapM]; [reflexivity|].
  rewrite (decode_input_item i Hi), IH. reflexivity.
Qed.

Lemma decode_output_item o it :
  output_item o = Some it -> decode_output it = decoded_output o.
Proof.
  unfold output_item, decoded_output.
  destruct (numberToBN (amount o)) as [v|]; cbn [obind]; [|discriminate].
  intros [= <-]. cbn [decode_output]. now rewrite !from_be_be_bytes.
Qed.

Lemma decode_outputs outs :
  forall items,
    mapM output_item outs = Some items ->
    mapM decode_output items = mapM decoded_output outs.
Proof.
  induction outs as [|o outs IH]; intros items; cbn [mapM].
  - intros [= <-]. reflexivity.
  - destruct (output_item o) as [it|] eqn:Eo; cbn [obind]; [|discriminate].
    destruct (mapM output_item outs) as [its|] eqn:Eos; cbn [obind]; [|discriminate].
    intros [= <-]. cbn [mapM].
    rewrite (decode_output_item o it Eo), (IH its eq_refl). reflexivity.
Qed.

Lemma encode_item tx bytes :
  encode tx = Some bytes ->
  exists outs,
    mapM output_item (outputs tx) = Some outs /\
    bytes = rlp_encode (Lst [Str (be_bytes (txType tx));
                             Lst (map input_item (inputs tx));
                             Lst outs;
                             Str (be_bytes (txData tx));
                             Str (metadata_bytes (metadata tx))]).
Proof.
  unfold encode, to_item.
  destruct (mapM output_item (outputs tx)) as [outs|]; [|discriminate].
  intros H. exists outs. split; [reflexivity|].
  unfold obind, option_map in H. congruence.
Qed.

(** Decoding what [encode] produced gives [decoded]. *)
Lemma decodeTxBytes_encode tx bytes :
  Forall wf_input (inputs tx) ->
  encode tx = Some bytes -> fits bytes ->
  decodeTxBytes bytes = decoded tx.
Proof.
  intros Hin Henc Hfit.
  destruct (encode_item tx bytes Henc) as (outs & Eouts & ->).
  unfold decodeTxBytes. rewrite (decode_encode _ Hfit).
  unfold obind at 1. rewrite (decode_inputs _ Hin).
  unfold obind at 1. rewrite (decode_outputs _ _ Eouts). unfold decoded.
  rewrite !from_be_be_bytes. reflexivity.
Qed.

Lemma mapM_Forall2 {A B} (f : A -> option B) l :
  forall l', mapM f l = Some l' -> Forall2 (fun a b => f a = Some b) l l'.
Proof.
  induction l as [|a l IH]; intros l'; cbn [mapM].
  - intros [= <-]. constructor.
  - destruct (f a) as [b|] eqn:Ea; cbn [obind]; [|discriminate].
    destruct (mapM f l) as [bs|]; cbn [obind]; [|discriminate].
    intros [= <-]. constructor; auto.
Qed.

Lemma mapM_total {A B} (f : A -> option B) l :
  Forall (fun a => exists b, f a = Some b) l -> exists l', mapM f l = Some l'.
Proof.
  induction 1 as [|a l [b Hb] _ [bs IH]]; cbn [mapM].
  - eauto.
  - rewrite Hb, IH. cbn [obind]. eauto.
Qed.

Lemma mapM_ext_Forall2 {A B} (f : A -> option B) l l' :
  Forall2 (fun a a' => f a' = f a) l l' -> mapM f l' = mapM f l.
Proof.
  induction 1 as [|a a' l l' Ha _ IH]; cbn [mapM]; [reflexivity|].
  now rewrite Ha, IH.
Qed.

Lemma encode_defined tx :
  Forall (fun o => exists v, numberToBN (amount o) = Some v) (outputs tx) ->
  exists bytes, encode tx = Some bytes.
Proof.
  intros H. unfold encode, to_item.
  destruct (mapM_total output_item (outputs tx)) as [outs ->].
  - eapply Forall_impl; [|exact H]. intros o [v Hv].
    unfold output_item. rewrite Hv. cbn [obind]. eauto.
  - cbn [obind option_map]. eauto.
Qed.

(** The three writings of one value. *)
Lemma numberToBN_agree n :
  numberToBN (Decimal (BN.to_decimal n)) = Some n /\
  numberToBN (Big n) = Some n /\
  (n <= JsNumber.MAX_SAFE_INTEGER -> numberToBN (Native n) = Some n).
Proof.
  cbn [numberToBN]. split; [apply BNFacts.of_to_decimal|]. split; [reflexivity|].
  intros Hn. rewrite (JsNumberFacts.toString_safe n Hn). cbn [obind].
  apply BNFacts.of_to_decimal.
Qed.

(** For an amount that is a number, the conversion gives its value. *)
Lemma numberToBN_value a :
  wf_amount a -> numberToBN a = amount_value a /\ exists v, amount_value a = Some v.
Proof.
  destruct a as [n|s|n]; cbn [wf_amount numberToBN amount_value].
  - intros Hn. rewrite (JsNumberFacts.toString_safe n Hn). cbn [obind].
    rewrite BNFacts.of_to_decimal. eauto.
  - intros [v Hv]. rewrite Hv. eauto.
  - eauto.
Qed.

(** C1, as amended. A transaction with 0 to 4 inputs and 0 to 4 outputs
    (positions within their ranges, amounts that are numbers, the native
    ones at most 2^53 - 1, an encoding that fits the format) is encoded,
    and decoding the bytes reproduces it: type, inputs, outputs, txData and
    a supplied metadata come back as they were, each amount as a decimal
    string of the value that was supplied, and an omitted metadata as the
    20-byte zero string. Outputs that differ only in how an amount of one
    value is written give the same bytes; a native integer up to 2^53 - 1,
    the decimal string and the arbitrary-precision integer of one value are
    such writings. *)
Theorem decodeTxBytes_encode_reproduces (tx : Transaction)
  (Hins : (List.length (inputs tx) <= 4)%nat)
  (Houts : (List.length (outputs tx) <= 4)%nat)
  (Hwf : wf_transaction tx)
  (Hfit : encoding_fits tx) :
  (exists bytes d,
      encode tx = Some bytes /\ decodeTxBytes bytes = Some d /\ reproduces tx d) /\
  (forall outs',
      Forall2 same_value (outputs tx) outs' ->
      encode (mkTransaction (txType tx) (inputs tx) outs' (txData tx) (metadata tx)) =
      encode tx) /\
  (forall n,
      n <= JsNumber.MAX_SAFE_INTEGER ->
      amount_value (Native n) = Some n /\
      amount_value (Decimal (BN.to_decimal n)) = Some n /\
      amount_value (Big n) = Some n /\
      numberToBN (Native n) = Some n /\
      numberToBN (Decimal (BN.to_decimal n)) = Some n /\
      numberToBN (Big n) = Some n).
Proof.
  destruct Hwf as (Hin & Hamt & Hmeta).
  assert (Forall (fun o => exists v, numberToBN (amount o) = Some v) (outputs tx)) as Hnum.
  { eapply Forall_impl; [|exact Hamt]. intros o Ho.
    destruct (numberToBN_value _ Ho) as [-> Hv]. exact Hv. }
  split; [|split].
  - destruct (encode_defined tx Hnum) as [bytes Henc].
    unfold encoding_fits in Hfit. rewrite Henc in Hfit.
    pose proof (decodeTxBytes_encode tx bytes Hin Henc Hfit) as Hdec.
    unfold decoded in Hdec.
    destruct (mapM_total decoded_output (outputs tx)) as [douts Hd].
    { eapply Forall_impl; [|exact Hnum]. intros o [v Hv].
      unfold decoded_output. rewrite Hv. cbn [obind]. eauto. }
    rewrite Hd in Hdec. cbn [obind] in Hdec.
    exists bytes. eexists. split; [exact Henc|]. split; [exact Hdec|].
    unfold reproduces. cbn [d_txType d_inputs d_outputs d_txData d_metadata].
    split; [reflexivity|]. split; [reflexivity|]. split; [|split; [reflexivity|]].
    + apply mapM_Forall2 in Hd. clear -Hd Hamt.
      induction Hd as [|o d outs ds Hod _ IH]; constructor.
      * apply Forall_inv in Hamt. destruct (numberToBN_value _ Hamt) as [Hn _].
        unfold decoded_output in Hod. rewrite Hn in Hod.
        destruct (amount_value (amount o)) as [v|] eqn:Ev; cbn [obind] in Hod;
          [|discriminate].
        injection Hod as <-. unfold same_output.
        cbn [d_outputType d_outputGuard d_currency d_amount].
        split; [reflexivity|]. split; [reflexivity|]. split; [reflexivity|].
        exists v. split; [exact Ev | apply BNFacts.of_to_decimal].
      * apply IH. now apply Forall_inv_tail in Hamt.
    + destruct (metadata tx) as [m|]; cbn [metadata_bytes].
      * destruct m as [|b m]; [congruence | reflexivity].
      * reflexivity.
  - intros outs' Hsame. unfold encode, to_item.
    cbn [txType inputs outputs txData metadata].
    rewrite (mapM_ext_Forall2 output_item (outputs tx) outs'); [reflexivity|].
    clear -Hsame Hamt.
    induction Hsame as [|o o' outs outs' Hoo _ IH]; constructor.
    + destruct Hoo as (Ht & Hg & Hc & Hw & Hv). apply Forall_inv in Hamt.
      unfold output_item. rewrite Ht, Hg, Hc.
      rewrite (proj1 (numberToBN_value _ Hw)), (proj1 (numberToBN_value _ Hamt)), Hv.
      reflexivity.
    + apply IH. now apply Forall_inv_tail in Hamt.
  - intros n Hn. cbn [amount_value]. rewrite BNFacts.of_to_decimal.
    destruct (numberToBN_agree n) as (H1 & H2 & H3). auto 7.
Qed.

Lemma decodeTxBytes_encode_reproduces_witness :
  exists bytes d,
    encode (test_tx (Decimal "123")) = Some bytes /\
    decodeTxBytes bytes = Some d /\
    reproduces (test_tx (Decimal "123")) d.
Proof.
  refine (proj1 (decodeTxBytes_encode_reproduces (test_tx (Decimal "123")) _ _ _ _)).
  - simpl. lia.
  - simpl. lia.
  - split; [|split].
    + repeat constructor; vm_compute; discriminate.
    + repeat constructor. exists 123. vm_compute. reflexivity.
    + discriminate.
  - vm_compute. reflexivity.
Defined.

(** C1, as the specification words it, fails for a native amount beyond
    2^53. The first fixture of the transaction test supplies the number
    500000000000000123 and expects the amount bytes 06f05b59d3b20064, which
    are 500000000000000100; the decimal string and the arbitrary-precision
    integer 500000000000000123 give 06f05b59d3b2007b. The same holds for
    500000000000000128, which is a double: as a number it is encoded as
    500000000000000100, as a string or an arbitrary-precision integer as
    06f05b59d3b20080, and decoding the encoding of the number gives the
    amount 500000000000000100, not the value supplied. *)
Lemma encode_native_counterexample :
  encodeHex (test_tx (Native 500000000000000123)) =
    Some "0xf85c01e1a0000000000000000000000000000000000000000000000000004640596164aa00f6f501f394f4ebbe787311bb955bb353b7a4d8b97af8ed1c9b9400000000000000000000000000000000000000008806f05b59d3b200648080"%string /\
  encodeHex (test_tx (Decimal "500000000000000123")) =
    Some "0xf85c01e1a0000000000000000000000000000000000000000000000000004640596164aa00f6f501f394f4ebbe787311bb955bb353b7a4d8b97af8ed1c9b9400000000000000000000000000000000000000008806f05b59d3b2007b8080"%string /\
  encodeHex (test_tx (Big 500000000000000123)) =
    encodeHex (test_tx (Decimal "500000000000000123")) /\
  JsNumber.to_double 500000000000000128 = 500000000000000128 /\
  encodeHex (test_tx (Native 500000000000000128)) =
    encodeHex (test_tx (Native 500000000000000123)) /\
  encodeHex (test_tx (Big 500000000000000128)) =
    Some "0xf85c01e1a0000000000000000000000000000000000000000000000000004640596164aa00f6f501f394f4ebbe787311bb955bb353b7a4d8b97af8ed1c9b9400000000000000000000000000000000000000008806f05b59d3b200808080"%string /\
  encodeHex (test_tx (Decimal "500000000000000128")) =
    encodeHex (test_tx (Big 500000000000000128)) /\
  (encode (test_tx (Native 500000000000000128)) =
   encode (test_tx (Big 500000000000000128)) -> False) /\
  option_map (fun d => map d_amount (d_outputs d))
    (bytes <- encode (test_tx (Native 500000000000000128)) ;; decodeTxBytes bytes) =
    Some ["500000000000000100"%string].
Proof.
  repeat split; try (vm_compute; reflexivity).
  vm_compute. discriminate.
Qed.

(** C2, as amended. Decoding an encoded transaction returns every amount as
    the decimal string of its value; it returns the metadata that was
    supplied (the 32-byte value), and for a transaction without metadata
    the 20-byte zero string. *)
Theorem decodeTxBytes_amount_metadata (tx : Transaction) (bytes : list byte)
  (Hin : Forall wf_input (inputs tx))
  (Henc : encode tx = Some bytes)
  (Hfit : fits bytes) :
  exists d,
    decodeTxBytes bytes = Some d /\
    Forall2 (fun o o' => exists v, numberToBN (amount o) = Some v /\
                                   d_amount o' = BN.to_decimal v)
            (outputs tx) (d_outputs d) /\
    (forall m, metadata tx = Some m -> m <> [] -> d_metadata d = m) /\
    (metadata tx = None ->
     d_metadata d = NULL_ADDRESS /\ List.length (d_metadata d) = 20%nat).
Proof.
  rewrite (decodeTxBytes_encode tx bytes Hin Henc Hfit). unfold decoded.
  unfold encode, to_item in Henc.
  destruct (mapM output_item (outputs tx)) as [items|] eqn:Eitems;
    cbn [obind option_map] in Henc; [|discriminate].
  assert (Forall (fun o => exists v, numberToBN (amount o) = Some v) (outputs tx)) as Hamt.
  { apply mapM_Forall2 in Eitems. clear -Eitems.
    induction Eitems as [|o it outs its Ho _ IH]; constructor; auto.
    unfold output_item in Ho.
    destruct (numberToBN (amount o)) as [v|]; [eauto | discriminate]. }
  destruct (mapM_total decoded_output (outputs tx)) as [douts Hd].
  { eapply Forall_impl; [|exact Hamt]. intros o [v Hv].
    unfold decoded_output. rewrite Hv. cbn [obind]. eauto. }
  rewrite Hd. cbn [obind]. eexists. split; [reflexivity|].
  cbn [d_outputs d_metadata]. split; [|split].
  - apply mapM_Forall2 in Hd. eapply Forall2_impl; [|exact Hd].
    intros o d Hod. unfold decoded_output in Hod.
    destruct (numberToBN (amount o)) as [v|] eqn:Ev; cbn [obind] in Hod; [|discriminate].
    injection Hod as <-. exists v. split; reflexivity.
  - intros m Hm Hne. rewrite Hm. cbn [metadata_bytes].
    destruct m; [congruence | reflexivity].
  - intros Hm. rewrite Hm. split; reflexivity.
Qed.

Lemma decodeTxBytes_amount_metadata_witness :
  exists bytes d,
    encode (test_tx (Decimal "123")) = Some bytes /\
    decodeTxBytes bytes = Some d /\
    map d_amount (d_outputs d) = ["123"%string] /\
    d_metadata d = NULL_ADDRESS.
Proof.
  destruct (encode (test_tx (Decimal "123"))) as [bytes|] eqn:E;
    [|vm_compute in E; discriminate].
  destruct (decodeTxBytes_amount_metadata (test_tx (Decimal "123")) bytes)
    as (d & Hd & Hamt & _ & Hmeta).
  - repeat constructor; vm_compute; discriminate.
  - exact E.
  - vm_compute in E. injection E as <-. vm_compute. reflexivity.
  - exists bytes, d. split; [reflexivity|]. split; [exact Hd|]. split.
    + cbn [test_tx outputs] in Hamt.
      inversion Hamt as [|o o' l l' (v & Hv & Ha) Hrest]; subst.
      inversion Hrest; subst. cbn [map]. rewrite Ha.
      vm_compute in Hv. injection Hv as <-. reflexivity.
    + apply Hmeta. reflexivity.
Defined.

(** C2, as the specification words it, fails on the transaction of the
    decoding test, which has no metadata: what comes back is 20 zero
    bytes, not the 32 zero bytes of [NULL_METADATA]. *)
Lemma decodeTxBytes_metadata_counterexample :
  metadata (test_tx (Decimal "123")) = None /\
  option_map (option_map d_metadata)
    (option_map decodeTxBytes (encode (test_tx (Decimal "123")))) =
    Some (Some NULL_ADDRESS) /\
  List.length NULL_ADDRESS = 20%nat /\
  List.length NULL_METADATA = 32%nat /\
  (option_map (option_map d_metadata)
     (option_map decodeTxBytes (encode (test_tx (Decimal "123")))) =
   Some (Some NULL_METADATA) -> False).
Proof.
  repeat split; try (vm_compute; reflexivity).
  vm_compute. discriminate.
Qed.

End TransactionFacts.

(** * Further properties of the code *)

(** ** hexPrefix.js *)
Module HexPrefixFacts.

Lemma prefix_0x data : String.prefix "0x" ("0x" ++ data) = true.
Proof.
  cbn [append String.prefix].
  destruct (ascii_dec "0" "0"); [|congruence].
  destruct (ascii_dec "x" "x"); [|congruence].
  destruct data; reflexivity.
Qed.

(** X1. [hexPrefix] throws on the empty string. On any other string it
    returns a string that starts with [0x] (the string itself when it has
    the prefix, two characters more otherwise), and applying [hexPrefix]
    to the result returns the result. *)
Theorem hexPrefix_idempotent (data : string) :
  (data = EmptyString -> hexPrefix data = None) /\
  (data <> EmptyString ->
   exists r,
     hexPrefix data = Some r /\
     hexPrefix r = Some r /\
     String.prefix "0x" r = true /\
     String.length r =
       (if String.prefix "0x" data then String.length data
        else 2 + String.length data)%nat).
Proof.
  split; [intros ->; reflexivity|]. intros Hne.
  destruct data as [|c data]; [congruence|]. cbn [hexPrefix].
  destruct (String.prefix "0x" (String c data)) eqn:E.
  - exists (String c data). cbn [hexPrefix]. rewrite E. auto.
  - exists ("0x" ++ String c data)%string.
    split; [reflexivity|]. split; [|split; [apply prefix_0x | reflexivity]].
    change ("0x" ++ String c data)%string with (String "0" (String "x" (String c data))).
    cbn [hexPrefix].
    change (String "0" (String "x" (String c data))) with ("0x" ++ String c data)%string.
    now rewrite prefix_0x.
Qed.

End HexPrefixFacts.

(** ** More on the exit queue *)
Module ExitQueueMore.
Import BN BNFacts ExitQueue ExitQueueFacts Heap.

Ltac numerals :=
  repeat match goal with
         | |- context [2 ^ ?k] =>
             let v := eval vm_compute in (2 ^ k) in change (2 ^ k) with v
         | H : context [2 ^ ?k] |- _ =>
             let v := eval vm_compute in (2 ^ k) in change (2 ^ k) with v in H
         end.

(** X2. The decoder undoes the packing of a priority: for an exitable-at
    time below 2^42, reserved bits below 2^54 and an exit id below 2^160,
    the priority [exitableAt*2^214 + reserved*2^160 + exitId] decodes to
    that time and that id, whatever the reserved bits are. *)
Theorem decodePriority_unpacks (at_ reserved id : N)
  (Hat : at_ < 2 ^ 42) (Hres : reserved < 2 ^ 54) (Hid : id < 2 ^ 160) :
  decodePriority (at_ * 2 ^ 214 + reserved * 2 ^ 160 + id) =
    Some (mkExitEntry (to_decimal (at_ * 2 ^ 214 + reserved * 2 ^ 160 + id))
                      (to_decimal at_) (to_decimal id)).
Proof.
  set (p := at_ * 2 ^ 214 + reserved * 2 ^ 160 + id).
  assert (p < 2 ^ 256) as Hp by (subst p; numerals; lia).
  rewrite decodePriority_entry. unfold entry_of. cbv zeta.
  rewrite (high_digits 42 p Hp) by lia.
  change (substring 96 160) with (substring 96 (256 - 96)).
  rewrite (low_digits 96 p Hp) by lia.
  change (N.of_nat (256 - 42)) with 214. change (N.of_nat (256 - 96)) with 160.
  assert (p / 2 ^ 214 = at_) as ->.
  { symmetry. apply N.div_unique with (r := reserved * 2 ^ 160 + id);
      subst p; numerals; lia. }
  assert (p mod 2 ^ 160 = id) as ->.
  { symmetry. apply N.mod_unique with (q := at_ * 2 ^ 54 + reserved);
      subst p; numerals; lia. }
  reflexivity.
Qed.

Lemma decodePriority_unpacks_witness :
  decodePriority (1600000000 * 2 ^ 214 + 5 * 2 ^ 160 + 42) =
    Some (mkExitEntry (to_decimal (1600000000 * 2 ^ 214 + 5 * 2 ^ 160 + 42))
                      "1600000000" "42").
Proof.
  rewrite (decodePriority_unpacks 1600000000 5 42);
    [reflexivity | vm_compute; reflexivity ..].
Defined.

Lemma number_to_decimal n : number (to_decimal n) = n.
Proof. unfold number. now rewrite of_to_decimal. Qed.

(** The exitable-at time of an entry, as a number. *)
Lemma exitableAt_number p :
  p < 2 ^ 256 -> number (exitableAt (entry_of p)) = p / 2 ^ 214.
Proof.
  intros Hp. unfold entry_of. cbn [exitableAt].
  rewrite number_to_decimal, (high_digits 42 p Hp) by lia. reflexivity.
Qed.

Lemma heap_ok_from_forallb raw i :
  is_min_heap raw = true -> (2 <= i < List.length raw)%nat ->
  heap_ok_at raw i = true.
Proof.
  unfold is_min_heap. intros H Hi. rewrite forallb_forall in H.
  apply H. apply in_seq. lia.
Qed.

(** In a min-heap stored from index 1 the entry at index 1 is the least. *)
Lemma heap_root_least raw m :
  is_min_heap raw = true -> nth_error raw 1 = Some m ->
  forall i c, (1 <= i)%nat -> nth_error raw i = Some c -> m <= c.
Proof.
  intros Hheap Hroot i. induction i as [i IH] using lt_wf_ind. intros c Hi Hc.
  destruct (Nat.eq_dec i 1) as [->|Hne]; [rewrite Hroot in Hc; injection Hc as <-; lia|].
  assert (i < List.length raw)%nat as Hlen by (apply nth_error_Some; congruence).
  pose proof (heap_ok_from_forallb raw i Hheap ltac:(lia)) as Hok.
  unfold heap_ok_at in Hok. rewrite Hc in Hok.
  assert (1 <= i / 2 < i)%nat as Hhalf.
  { split; [apply Nat.div_le_lower_bound; lia | apply Nat.div_lt; lia]. }
  destruct (nth_error raw (i / 2)) as [p|] eqn:Hp.
  - apply N.leb_le in Hok. pose proof (IH (i / 2)%nat ltac:(lia) p ltac:(lia) Hp). lia.
  - apply nth_error_None in Hp. lia.
Qed.

(** X3. When the heap list the contract returns holds 256-bit values and
    is a min-heap by priority (stored from index 1, the sentinel at index
    0), the first entry [getExitQueue] returns has the least exitable-at
    time of all the entries it returns. *)
Theorem getExitQueue_first_is_earliest (raw : list N) (first : ExitEntry)
  (rest : list ExitEntry)
  (Hwidth : all_uint256 raw = true)
  (Hheap : is_min_heap raw = true)
  (Hqueue : getExitQueue (Some raw) = Some (first :: rest)) :
  Forall (fun e => number (exitableAt first) <= number (exitableAt e)) rest.
Proof.
  destruct raw as [|sentinel tl]; [discriminate|].
  cbn [getExitQueue List.length Nat.eqb negb skipn] in Hqueue.
  rewrite mapM_decodePriority in Hqueue. injection Hqueue as Hq.
  destruct tl as [|m ps]; [discriminate|]. cbn [map] in Hq.
  injection Hq as <- <-.
  unfold all_uint256 in Hwidth. rewrite forallb_forall in Hwidth.
  assert (forall p, In p (sentinel :: m :: ps) -> p < 2 ^ 256) as Hw
    by (intros p Hp; apply N.ltb_lt; now apply Hwidth).
  apply Forall_forall. intros e He. apply in_map_iff in He as (c & <- & Hc).
  rewrite !exitableAt_number by (apply Hw; simpl; auto).
  apply N.Div0.div_le_mono.
  apply In_nth_error in Hc as [j Hj].
  apply (heap_root_least (sentinel :: m :: ps) m Hheap eq_refl (S (S j)) c);
    [lia | exact Hj].
Qed.

Lemma getExitQueue_first_is_earliest_witness :
  Forall (fun e => number (exitableAt (entry_of (5 * 2 ^ 214 + 9))) <=
                   number (exitableAt e))
         [entry_of (7 * 2 ^ 214 + 1); entry_of (6 * 2 ^ 214)].
Proof.
  apply (getExitQueue_first_is_earliest
           [0; 5 * 2 ^ 214 + 9; 7 * 2 ^ 214 + 1; 6 * 2 ^ 214]).
  - vm_compute. reflexivity.
  - vm_compute. reflexivity.
  - cbn [getExitQueue List.length Nat.eqb negb skipn].
    apply mapM_decodePriority.
Defined.

End ExitQueueMore.

(** ** More on exit scheduling *)
Module ExitTimeMore.
Import ExitTime ExitTimeFacts.
Local Open Scope Z_scope.

(** X4. With the exit-request block at hand, the scheduled time is never
    earlier than the exit request plus the period plus the buffer, nor than
    the submission block plus the period plus the buffer (when the period
    is not negative); the call asks the chain three times and sets no
    timer, however many retries it was given. *)
Theorem getExitTime_not_before (w : World) (a : Args) (blk : Block)
  (Hblk : getBlock w (exitRequestBlockNumber a) = Some blk) :
  exists r,
    getExitTime w a [] =
      (inr r, [CallMinExitPeriod; CallGetBlock (exitRequestBlockNumber a);
               CallBlocks (submissionBlockNumber a)]) /\
    timestamp blk + minExitPeriod w + 5 <= scheduledFinalizationTime r /\
    (0 <= minExitPeriod w ->
     timestamp (blocks w (submissionBlockNumber a)) + minExitPeriod w + 5
       <= scheduledFinalizationTime r) /\
    msUntilFinalization r =
      (scheduledFinalizationTime r - (clock_ms w + 500) / 1000) * 1000.
Proof.
  rewrite (getExitTime_available w a blk Hblk). eexists. split; [reflexivity|].
  cbn [scheduledFinalizationTime msUntilFinalization].
  unfold scheduled, spec_elevated.
  destruct (multiple_of_1000 (submissionBlockNumber a));
    repeat split; try lia.
Qed.

Lemma getExitTime_not_before_witness :
  exists r,
    fst (getExitTime sample_world (mkArgs 7 1001 0) []) = inr r /\
    115 <= scheduledFinalizationTime r.
Proof.
  destruct (getExitTime_not_before sample_world (mkArgs 7 1001 0) (mkBlock 100)
              eq_refl) as (r & Hr & Hlow & _).
  exists r. split; [rewrite Hr; reflexivity | exact Hlow].
Defined.

(** X5. Elevated priority is never later: for one exit request and two
    submission blocks of equal timestamp, one that the code's test takes
    for a non-multiple of 1000 and one that it takes for a multiple, the
    time scheduled for the first is at most the time scheduled for the
    second, when the period is not negative. For block numbers up to
    2^53 - 1 the code's test is the exact remainder. *)
Theorem getExitTime_deposit_not_later (w : World) (exitRequest dep reg : N)
  (retries1 retries2 : Z) (blk : Block)
  (Hblk : getBlock w exitRequest = Some blk)
  (Hdep : multiple_of_1000 dep = false)
  (Hreg : multiple_of_1000 reg = true)
  (Hsame : timestamp (blocks w dep) = timestamp (blocks w reg))
  (Hperiod : 0 <= minExitPeriod w) :
  exists r1 r2,
    fst (getExitTime w (mkArgs exitRequest dep retries1) []) = inr r1 /\
    fst (getExitTime w (mkArgs exitRequest reg retries2) []) = inr r2 /\
    scheduledFinalizationTime r1 <= scheduledFinalizationTime r2 /\
    ((dep <= JsNumber.MAX_SAFE_INTEGER)%N -> Z.of_N dep mod 1000 <> 0) /\
    ((reg <= JsNumber.MAX_SAFE_INTEGER)%N -> Z.of_N reg mod 1000 = 0).
Proof.
  rewrite (getExitTime_available w (mkArgs exitRequest dep retries1) blk Hblk).
  rewrite (getExitTime_available w (mkArgs exitRequest reg retries2) blk Hblk).
  do 2 eexists. split; [reflexivity|]. split; [reflexivity|].
  cbn [fst scheduledFinalizationTime submissionBlockNumber].
  unfold scheduled, spec_elevated. cbn [submissionBlockNumber].
  rewrite Hdep, Hreg, Hsame. split; [lia|]. split; intros Hsafe.
  - rewrite (multiple_of_1000_safe _ Hsafe) in Hdep. now apply Z.eqb_neq.
  - rewrite (multiple_of_1000_safe _ Hsafe) in Hreg. now apply Z.eqb_eq.
Qed.

Lemma getExitTime_deposit_not_later_witness :
  exists r1 r2,
    fst (getExitTime sample_world (mkArgs 7 1001 10) []) = inr r1 /\
    fst (getExitTime sample_world (mkArgs 7 2000 10) []) = inr r2 /\
    scheduledFinalizationTime r1 <= scheduledFinalizationTime r2.
Proof.
  destruct (getExitTime_deposit_not_later sample_world 7 1001 2000 10 10 (mkBlock 100))
    as (r1 & r2 & H1 & H2 & H3 & _);
    [reflexivity | vm_compute; reflexivity | vm_compute; reflexivity | reflexivity
    | vm_compute; discriminate |].
  exists r1, r2. auto.
Defined.

(** The invocations of a call whose block never shows up. *)
Lemma invocations_never world e s :
  (forall k, getBlock (world k) e = None) ->
  forall n k fuel,
    (n < fuel)%nat ->
    invocations fuel world k (mkArgs e s (Z.of_nat n)) =
      map (fun j =>
             (inl null_timestamp,
              [CallMinExitPeriod; CallGetBlock e;
               SetTimeout (mkArgs e s (Z.of_nat (n - 1 - j))) 5000;
               CallBlocks s]))
          (seq 0 n)
      ++ [(inl (Error ("Could not get exit request block data: "
                       ++ BN.to_decimal e)),
           [CallMinExitPeriod; CallGetBlock e])].
Proof.
  intros Hnone. induction n as [|n IH]; intros k fuel Hfuel;
    (destruct fuel as [|fuel]; [lia|]); cbn [invocations].
  - rewrite (getExitTime_missing_exhausted (world k) (mkArgs e s (Z.of_nat 0)))
      by (cbn; auto; lia).
    reflexivity.
  - rewrite (getExitTime_missing_retry (world k) (mkArgs e s (Z.of_nat (S n))))
      by (cbn [exitRequestBlockNumber retries]; auto; lia).
    cbn [snd pending_timer exitRequestBlockNumber submissionBlockNumber retries].
    replace (Z.of_nat (S n) - 1) with (Z.of_nat n) by lia.
    rewrite (IH (S k) fuel) by lia.
    cbn [seq map app]. rewrite <- seq_shift, map_map.
    replace (S n - 1 - 0)%nat with n by lia.
    f_equal. f_equal. apply map_ext. intros j.
    replace (S n - 1 - S j)%nat with (n - 1 - j)%nat by lia. reflexivity.
Qed.

(** X6. The retries are bounded. When the exit-request block never shows
    up and the call is given [n] retries, there are exactly [n + 1]
    invocations: each of the first [n] asks for the block, sets one timer
    of 5000 ms for an invocation with one retry less and fails on the null
    block; the last one asks for the block, throws the error that names it
    and asks the chain for nothing else. *)
Theorem getExitTime_retries_are_bounded (world : nat -> World) (a : Args)
  (n fuel : nat)
  (Hnone : forall k, getBlock (world k) (exitRequestBlockNumber a) = None)
  (Hretries : retries a = Z.of_nat n)
  (Hfuel : (n < fuel)%nat) :
  invocations fuel world 0 a =
    map (fun j =>
           (inl null_timestamp,
            [CallMinExitPeriod; CallGetBlock (exitRequestBlockNumber a);
             SetTimeout (mkArgs (exitRequestBlockNumber a) (submissionBlockNumber a)
                                (Z.of_nat (n - 1 - j))) 5000;
             CallBlocks (submissionBlockNumber a)]))
        (seq 0 n)
    ++ [(inl (Error ("Could not get exit request block data: "
                     ++ BN.to_decimal (exitRequestBlockNumber a))),
         [CallMinExitPeriod; CallGetBlock (exitRequestBlockNumber a)])] /\
  List.length (invocations fuel world 0 a) = S n.
Proof.
  destruct a as [e s r]. cbn [exitRequestBlockNumber submissionBlockNumber retries] in *.
  subst r. rewrite (invocations_never world e s Hnone n 0%nat fuel Hfuel).
  split; [reflexivity|]. rewrite length_app, length_map, length_seq. simpl. lia.
Qed.

Lemma getExitTime_retries_are_bounded_witness :
  List.length (invocations 100 never_there 0 (mkArgs 123 1001 10)) = 11%nat.
Proof.
  refine (proj2 (getExitTime_retries_are_bounded never_there (mkArgs 123 1001 10)
                   10 100 _ _ _)).
  - intros k. reflexivity.
  - reflexivity.
  - lia.
Defined.

(** The invocations of a call whose block shows up at the [j]-th retry. *)
Lemma invocations_found world e s blk :
  forall j k n fuel,
    (forall i, (k <= i < k + j)%nat -> getBlock (world i) e = None) ->
    getBlock (world (k + j)%nat) e = Some blk ->
    (j <= n)%nat -> (j < fuel)%nat ->
    map fst (invocations fuel world k (mkArgs e s (Z.of_nat n))) =
      repeat (inl null_timestamp) j ++
      [fst (getExitTime (world (k + j)%nat) (mkArgs e s (Z.of_nat (n - j))) [])] /\
    pending_timer
      (snd (getExitTime (world (k + j)%nat) (mkArgs e s (Z.of_nat (n - j))) [])) = None.
Proof.
  induction j as [|j IH]; intros k n fuel Hnone Hsome Hjn Hfuel;
    (destruct fuel as [|fuel]; [lia|]); cbn [invocations].
  - rewrite Nat.add_0_r in *. rewrite Nat.sub_0_r.
    rewrite (getExitTime_available (world k) (mkArgs e s (Z.of_nat n)) blk Hsome).
    cbn [snd pending_timer map fst repeat app]. split; reflexivity.
  - rewrite (getExitTime_missing_retry (world k) (mkArgs e s (Z.of_nat n)))
      by (cbn [exitRequestBlockNumber retries]; first [apply Hnone; lia | lia]).
    cbn [snd pending_timer exitRequestBlockNumber submissionBlockNumber retries].
    replace (Z.of_nat n - 1) with (Z.of_nat (n - 1)) by lia.
    destruct (IH (S k) (n - 1)%nat fuel) as [H1 H2]; try lia.
    + intros i Hi. apply Hnone. lia.
    + replace (S k + j)%nat with (k + S j)%nat by lia. exact Hsome.
    + replace (S k + j)%nat with (k + S j)%nat in * by lia.
      replace (n - 1 - j)%nat with (n - S j)%nat in * by lia.
      cbn [map fst repeat app]. rewrite H1. split; [reflexivity | exact H2].
Qed.

(** X7. A block that shows up stops the retries, and its result reaches
    nobody. When the block is missing for the first [j] invocations
    ([1 <= j <= retries]) and is there for the next, the caller's
    invocation and the [j - 1] after it fail on the null block, the
    invocation that finds the block returns the schedule and sets no
    timer, and no invocation follows; the schedule is the return value of a
    timer callback. The schedule is the one of the code's test on the
    Number of the submission block number; for a block number up to
    2^53 - 1 that is the formula of its exact remainder by 1000. *)
Theorem getExitTime_found_late (world : nat -> World) (a : Args) (blk : Block)
  (j n fuel : nat)
  (Hnone : forall i, (i < j)%nat -> getBlock (world i) (exitRequestBlockNumber a) = None)
  (Hsome : getBlock (world j) (exitRequestBlockNumber a) = Some blk)
  (Hj : (1 <= j <= n)%nat)
  (Hretries : retries a = Z.of_nat n)
  (Hfuel : (j < fuel)%nat) :
  exists r,
    map fst (invocations fuel world 0 a) =
      repeat (inl null_timestamp) j ++ [inr r] /\
    hd_error (map fst (invocations fuel world 0 a)) = Some (inl null_timestamp) /\
    scheduledFinalizationTime r =
      scheduled a (timestamp blk)
                (timestamp (blocks (world j) (submissionBlockNumber a)))
                (minExitPeriod (world j)) + 5 /\
    ((submissionBlockNumber a <= JsNumber.MAX_SAFE_INTEGER)%N ->
     scheduledFinalizationTime r =
       (if Z.of_N (submissionBlockNumber a) mod 1000 =? 0
        then Z.max (timestamp blk + minExitPeriod (world j))
                   (timestamp (blocks (world j) (submissionBlockNumber a))
                    + 2 * minExitPeriod (world j))
        else Z.max (timestamp blk)
                   (timestamp (blocks (world j) (submissionBlockNumber a)))
             + minExitPeriod (world j)) + 5).
Proof.
  destruct a as [e s r0]. cbn [exitRequestBlockNumber submissionBlockNumber retries] in *.
  subst r0.
  destruct (invocations_found world e s blk j 0%nat n fuel) as [H _]; try lia.
  - intros i Hi. apply Hnone. lia.
  - exact Hsome.
  - cbn [Nat.add] in H. rewrite H.
    rewrite (getExitTime_available (world j) (mkArgs e s (Z.of_nat (n - j))) blk Hsome).
    eexists. split; [reflexivity|]. split; [|split].
    + destruct j; [lia | reflexivity].
    + reflexivity.
    + intros Hsafe. cbn [fst scheduledFinalizationTime]. unfold scheduled, spec_elevated.
      cbn [submissionBlockNumber].
      rewrite (ExitTimeFacts.multiple_of_1000_safe _ Hsafe). reflexivity.
Qed.

Lemma getExitTime_found_late_witness :
  exists r,
    map fst (invocations 100 there_at_third 0 (mkArgs 123 1001 10)) =
      [inl null_timestamp; inl null_timestamp; inr r] /\
    scheduledFinalizationTime r = 1600604855.
Proof.
  destruct (getExitTime_found_late there_at_third (mkArgs 123 1001 10)
              (mkBlock 1600000050) 2 10 100) as (r & H & _ & Hs & _).
  - intros i Hi. cbn. destruct i as [|[|i]]; [reflexivity | reflexivity | lia].
  - reflexivity.
  - lia.
  - reflexivity.
  - lia.
  - exists r. split; [exact H|]. rewrite Hs. vm_compute. reflexivity.
Defined.

End ExitTimeMore.

(** ** The handles in sequential use *)
Module RootChainFacts.
Import Handles RootChain.

(** What a call awaited to its end does to the memo field of the exit game. *)
Lemma call_cases ch c :
  match paymentExitGame c with
  | Some g => call ch c = (c, Done g)
  | None =>
      call ch c =
        (mkClient (Some (resolved ch))
           (issued c ++ [LExitGames PAYMENT_TYPE]
              ++ [LStandardExitBond (exitGames ch PAYMENT_TYPE);
                  LPiggybackBond (exitGames ch PAYMENT_TYPE);
                  LIFEBond (exitGames ch PAYMENT_TYPE)]),
         Done (resolved ch))
  end.
Proof.
  destruct c as [[g|] l]; cbn [paymentExitGame].
  - reflexivity.
  - unfold call. cbn [resume paymentExitGame issued]. rewrite <- app_assoc. reflexivity.
Qed.

Lemma getPaymentExitGame_handle w i :
  snd (getPaymentExitGame w i) = handle_after w i /\
  paymentExitGame (exitGame (fst (getPaymentExitGame w i))) = Some (handle_after w i) /\
  ethVault (fst (getPaymentExitGame w i)) = ethVault i /\
  erc20Vault (fst (getPaymentExitGame w i)) = erc20Vault i /\
  vaultLookups (fst (getPaymentExitGame w i)) = vaultLookups i.
Proof.
  unfold getPaymentExitGame, handle_after.
  pose proof (call_cases (games w) (exitGame i)) as H.
  destruct (paymentExitGame (exitGame i)) as [g|] eqn:E; rewrite H;
    cbn [fst snd exitGame paymentExitGame ethVault erc20Vault vaultLookups]; auto.
Qed.







Lemma session_cons w o op rest i :
  session ((w, o, op) :: rest) i =
    (fst (session rest (fst (exec w i o op))),
     snd (exec w i o op) :: snd (session rest (fst (exec w i o op)))).
Proof.
  cbn [session]. destruct (exec w i o op) as [i' d]. cbn [fst snd].
  destruct (session rest i') as [i'' ds]. reflexivity.
Qed.



(** *** What the operations send *)

Lemma exec_exit_game w i o op :
  awaitsExitGame op = true ->
  paymentExitGame (exitGame (fst (exec w i o op))) = Some (handle_after w i) /\
  ethVault (fst (exec w i o op)) = ethVault i /\
  erc20Vault (fst (exec w i o op)) = erc20Vault i /\
  (sendsToExitGame op = true ->
   exists d,
     snd (exec w i o op) = Some d /\
     tx_to d = address (handle_after w i) /\
     tx_value d = option_map (fun f => f (bonds (handle_after w i))) (bond_of op) /\
     tx_from d = from o).
Proof.
  intros Hop.
  destruct (getPaymentExitGame_handle w i) as (Hs & Hm & He & Hr & _).
  destruct op; try discriminate Hop; cbn [exec]; unfold onExitGame;
    destruct (getPaymentExitGame w i) as [i' g]; cbn [fst snd] in *; subst g;
    (split; [exact Hm|]); (split; [exact He|]); (split; [exact Hr|]);
    intros Hsend; try discriminate Hsend;
    eexists; (split; [reflexivity|]); repeat split.
Qed.

Lemma getErc20Vault_memo w i :
  erc20Vault (fst (getErc20Vault w i)) = Some (snd (getErc20Vault w i)) /\
  ethVault (fst (getErc20Vault w i)) = ethVault i /\
  exitGame (fst (getErc20Vault w i)) = exitGame i /\
  (forall v, erc20Vault i = Some v -> snd (getErc20Vault w i) = v).
Proof.
  unfold getErc20Vault. destruct (erc20Vault i) as [v|] eqn:E; cbn [fst snd].
  - repeat split; auto. intros v' [= <-]. reflexivity.
  - repeat split. discriminate.
Qed.

Lemma getEthVault_memo w i :
  ethVault (fst (getEthVault w i)) = Some (snd (getEthVault w i)) /\
  erc20Vault (fst (getEthVault w i)) = erc20Vault i /\
  exitGame (fst (getEthVault w i)) = exitGame i /\
  (forall v, ethVault i = Some v -> snd (getEthVault w i) = v).
Proof.
  unfold getEthVault. destruct (ethVault i) as [v|] eqn:E; cbn [fst snd].
  - repeat split; auto. intros v' [= <-]. reflexivity.
  - repeat split. discriminate.
Qed.

(** A stored handle stays as it is, whatever is awaited next. *)
Lemma exec_keeps w i o op :
  (forall g, paymentExitGame (exitGame i) = Some g ->
             paymentExitGame (exitGame (fst (exec w i o op))) = Some g) /\
  (forall v, ethVault i = Some v -> ethVault (fst (exec w i o op)) = Some v) /\
  (forall v, erc20Vault i = Some v -> erc20Vault (fst (exec w i o op)) = Some v).
Proof.
  destruct (awaitsExitGame op) eqn:Hop.
  - destruct (exec_exit_game w i o op Hop) as (Hm & He & Hr & _).
    rewrite Hm, He, Hr. unfold handle_after.
    repeat split; auto. intros g Hg. now rewrite Hg.
  - destruct op; try discriminate Hop; cbn [exec onPlasmaContract fst]; auto.
    + destruct (getErc20Vault_memo w i) as (Hs & He & Hg & Hk).
      destruct (getErc20Vault w i) as [i' v]. cbn [fst snd] in *.
      rewrite He, Hg, Hs. repeat split; auto.
      intros v' Hv'. now rewrite (Hk v' Hv').
    + destruct (String.eqb currency ETH_CURRENCY).
      * destruct (getEthVault_memo w i) as (Hs & Hr & Hg & Hk).
        destruct (getEthVault w i) as [i' v]. cbn [fst snd] in *.
        rewrite Hr, Hg, Hs. repeat split; auto.
        intros v' Hv'. now rewrite (Hk v' Hv').
      * destruct (getErc20Vault_memo w i) as (Hs & He & Hg & Hk).
        destruct (getErc20Vault w i) as [i' v]. cbn [fst snd] in *.
        rewrite He, Hg, Hs. repeat split; auto.
        intros v' Hv'. now rewrite (Hk v' Hv').
Qed.

Lemma session_keeps steps :
  forall i,
    (forall g, paymentExitGame (exitGame i) = Some g ->
               paymentExitGame (exitGame (fst (session steps i))) = Some g) /\
    (forall v, ethVault i = Some v -> ethVault (fst (session steps i)) = Some v) /\
    (forall v, erc20Vault i = Some v -> erc20Vault (fst (session steps i)) = Some v).
Proof.
  induction steps as [|[[w o] op] rest IH]; intros i.
  - cbn [session fst]. auto.
  - rewrite session_cons. cbn [fst].
    destruct (exec_keeps w i o op) as (Hg & He & Hr).
    destruct (IH (fst (exec w i o op))) as (Hg' & He' & Hr').
    repeat split; auto.
Qed.

(** With the handle stored, every transaction to the exit game uses it. *)
Lemma session_uses_stored steps :
  forall i g k w o op,
    paymentExitGame (exitGame i) = Some g ->
    nth_error steps k = Some (w, o, op) ->
    sendsToExitGame op = true ->
    exists d,
      nth_error (snd (session steps i)) k = Some (Some d) /\
      tx_to d = address g /\
      tx_value d = option_map (fun f => f (bonds g)) (bond_of op).
Proof.
  induction steps as [|[[w0 o0] op0] rest IH]; intros i g k w o op Hg Hk Hop.
  - destruct k; discriminate.
  - rewrite session_cons. cbn [snd]. destruct k as [|k].
    + injection Hk as -> -> ->.
      assert (awaitsExitGame op = true) as Ha by (destruct op; auto; discriminate).
      destruct (exec_exit_game w i o op Ha) as (_ & _ & _ & Hd).
      destruct (Hd Hop) as (d & Hs & Hto & Hval & _).
      unfold handle_after in *. rewrite Hg in *.
      exists d. cbn [nth_error]. rewrite Hs. auto.
    + cbn [nth_error] in *.
      apply (IH (fst (exec w0 i o0 op0)) g k w o op); auto.
      now apply (exec_keeps w0 i o0 op0).
Qed.

(** X9. The exit game and its bonds are those of the first resolution for
    the life of the instance. When the first operation awaited on a new
    instance is one that awaits the exit game, every later transaction to
    the exit game goes to the address the chain gave then, and a
    transaction that posts a bond (standard exit, in-flight exit,
    piggyback) posts the Number of the size the chain gave then (the
    double nearest to it), whatever the chain answers when the later
    operation runs. *)
Theorem session_bonds_are_frozen (w0 : World) (o0 : TxOptions) (op0 : operation)
  (steps : list step) (plasma : N) (k : nat) (w : World) (o : TxOptions)
  (op : operation)
  (Hfirst : awaitsExitGame op0 = true)
  (Hk : nth_error ((w0, o0, op0) :: steps) k = Some (w, o, op))
  (Hop : sendsToExitGame op = true) :
  exists d,
    nth_error (snd (session ((w0, o0, op0) :: steps) (create plasma))) k = Some (Some d) /\
    tx_to d = exitGames (games w0) PAYMENT_TYPE /\
    tx_value d =
      match bond_of op with
      | Some size => Some (size (bonds (resolved (games w0))))
      | None => None
      end /\
    bonds (resolved (games w0)) =
      mkBonds
        (JsNumber.to_double
           (startStandardExitBondSize (games w0) (exitGames (games w0) PAYMENT_TYPE)))
        (JsNumber.to_double
           (piggybackBondSize (games w0) (exitGames (games w0) PAYMENT_TYPE)))
        (JsNumber.to_double
           (startIFEBondSize (games w0) (exitGames (games w0) PAYMENT_TYPE))).
Proof.
  rewrite session_cons. cbn [snd].
  destruct (exec_exit_game w0 (create plasma) o0 op0 Hfirst) as (Hm & _ & _ & Hd).
  change (handle_after w0 (create plasma)) with (resolved (games w0)) in *.
  destruct k as [|k].
  - injection Hk as -> -> ->. destruct (Hd Hop) as (d & Hs & Hto & Hval & _).
    exists d. cbn [nth_error]. rewrite Hs, Hto, Hval.
    destruct (bond_of op); auto.
  - cbn [nth_error] in *.
    destruct (session_uses_stored steps _ _ k w o op Hm Hk Hop) as (d & Hn & Hto & Hval).
    exists d. rewrite Hn, Hto, Hval. destruct (bond_of op); auto.
Qed.

Lemma session_bonds_are_frozen_witness :
  exists d,
    nth_error
      (snd (session [(world_a, options, getStandardExitId);
                     (world_b, options, startStandardExit)] (create 9))) 1
      = Some (Some d) /\
    tx_to d = 4096 /\ tx_value d = Some 14.
Proof.
  destruct (session_bonds_are_frozen world_a options getStandardExitId
              [(world_b, options, startStandardExit)] 9 1
              world_b options startStandardExit eq_refl eq_refl eq_refl)
    as (d & Hd & Hto & Hval & _).
  exists d. split; [exact Hd|]. split; [exact Hto | exact Hval].
Defined.

(** What a deposit and an approval send, in terms of the vaults the
    instance holds at the end of the session. *)
Lemma session_vault_details steps :
  forall i k w o op,
    nth_error steps k = Some (w, o, op) ->
    match op with
    | deposit amount currency =>
        exists d v,
          nth_error (snd (session steps i)) k = Some (Some d) /\
          tx_to d = vaultAddress v /\
          (if String.eqb currency ETH_CURRENCY
           then ethVault (fst (session steps i)) = Some v /\ tx_value d = Some amount
           else erc20Vault (fst (session steps i)) = Some v /\ tx_value d = None)
    | approveToken token amount =>
        exists d v,
          nth_error (snd (session steps i)) k = Some (Some d) /\
          erc20Vault (fst (session steps i)) = Some v /\
          tx_data d = Approve token (vaultAddress v) amount /\
          tx_to d = token /\ tx_value d = None
    | _ => True
    end.
Proof.
  induction steps as [|[[w0 o0] op0] rest IH]; intros i k w o op Hk.
  - destruct k; discriminate.
  - rewrite session_cons. cbn [fst snd]. destruct k as [|k].
    + injection Hk as -> -> ->.
      destruct (session_keeps rest (fst (exec w i o op))) as (_ & Heth & Herc).
      destruct op; auto; cbn [exec nth_error] in *.
      * destruct (getErc20Vault_memo w i) as (Hs & _).
        destruct (getErc20Vault w i) as [i' v]. cbn [fst snd] in *.
        eexists; exists v. split; [reflexivity|]. cbn. auto.
      * destruct (String.eqb currency ETH_CURRENCY).
        -- destruct (getEthVault_memo w i) as (Hs & _).
           destruct (getEthVault w i) as [i' v]. cbn [fst snd] in *.
           eexists; exists v. split; [reflexivity|]. cbn. auto.
        -- destruct (getErc20Vault_memo w i) as (Hs & _).
           destruct (getErc20Vault w i) as [i' v]. cbn [fst snd] in *.
           eexists; exists v. split; [reflexivity|]. cbn. auto.
    + cbn [nth_error] in *. apply (IH (fst (exec w0 i o0 op0)) k w o op Hk).
Qed.

(** X10. A deposit goes to the vault of its currency. A deposit whose
    currency is exactly the string [ETH_CURRENCY] is sent to the ETH vault
    the instance holds, with the amount as value; a deposit of any other
    currency is sent to the ERC20 vault, with no value. All deposits of
    one kind in a session therefore have one target. *)
Theorem session_deposit_target (steps : list step) (i : Instance) (k : nat)
  (w : World) (o : TxOptions) (amount : N) (currency : string)
  (Hk : nth_error steps k = Some (w, o, deposit amount currency)) :
  exists d v,
    nth_error (snd (session steps i)) k = Some (Some d) /\
    tx_to d = vaultAddress v /\
    (currency = ETH_CURRENCY ->
     ethVault (fst (session steps i)) = Some v /\ tx_value d = Some amount) /\
    (currency <> ETH_CURRENCY ->
     erc20Vault (fst (session steps i)) = Some v /\ tx_value d = None).
Proof.
  pose proof (session_vault_details steps i k w o _ Hk) as (d & v & Hn & Hto & Hif).
  exists d, v. split; [exact Hn|]. split; [exact Hto|].
  destruct (String.eqb_spec currency ETH_CURRENCY) as [E|E]; split; intros H;
    auto; congruence.
Qed.

Lemma session_deposit_target_witness :
  exists d v,
    nth_error
      (snd (session [(world_a, options, deposit 5 ETH_CURRENCY);
                     (world_b, options, deposit 6 ETH_CURRENCY)] (create 9))) 1
      = Some (Some d) /\
    tx_to d = vaultAddress v /\ vaultAddress v = 101 /\ tx_value d = Some 6.
Proof.
  destruct (session_deposit_target
              [(world_a, options, deposit 5 ETH_CURRENCY);
               (world_b, options, deposit 6 ETH_CURRENCY)] (create 9) 1
              world_b options 6 ETH_CURRENCY eq_refl)
    as (d & v & Hn & Hto & Heth & _).
  destruct (Heth eq_refl) as [Hv Hval].
  exists d, v. split; [exact Hn|]. split; [exact Hto|]. split; [|exact Hval].
  vm_compute in Hv. injection Hv as <-. reflexivity.
Defined.

(** X11. The spender of an approval is the target of the token deposits.
    In a session, the spender [approveToken] approves is the address every
    deposit of a currency other than [ETH_CURRENCY] is sent to, whichever
    of the two comes first and whatever the chain answers in between. *)
Theorem session_approval_matches_deposit (steps : list step) (i : Instance)
  (ka kd : nat) (wa wd : World) (oa od : TxOptions)
  (token allowance amount : N) (currency : string)
  (Ha : nth_error steps ka = Some (wa, oa, approveToken token allowance))
  (Hd : nth_error steps kd = Some (wd, od, deposit amount currency))
  (Hcur : currency <> ETH_CURRENCY) :
  exists da dd spender,
    nth_error (snd (session steps i)) ka = Some (Some da) /\
    nth_error (snd (session steps i)) kd = Some (Some dd) /\
    tx_data da = Approve token spender allowance /\
    tx_to da = token /\
    tx_to dd = spender /\ tx_value dd = None.
Proof.
  pose proof (session_vault_details steps i ka wa oa _ Ha)
    as (da & va & Hna & Hva & Hdata & Hto & _).
  pose proof (session_vault_details steps i kd wd od _ Hd)
    as (dd & vd & Hnd & Htod & Hif).
  apply String.eqb_neq in Hcur. rewrite Hcur in Hif. destruct Hif as [Hvd Hval].
  rewrite Hva in Hvd. injection Hvd as <-.
  exists da, dd, (vaultAddress va). auto 7.
Qed.

Lemma session_approval_matches_deposit_witness :
  exists da dd spender,
    nth_error
      (snd (session [(world_a, options, deposit 6 "0xd26114cd6ee289accf82350c8d8487fedb8a0c07");
                     (world_b, options, approveToken 77 1000)] (create 9))) 1
      = Some (Some da) /\
    nth_error
      (snd (session [(world_a, options, deposit 6 "0xd26114cd6ee289accf82350c8d8487fedb8a0c07");
                     (world_b, options, approveToken 77 1000)] (create 9))) 0
      = Some (Some dd) /\
    tx_data da = Approve 77 spender 1000 /\ tx_to dd = spender.
Proof.
  destruct (session_approval_matches_deposit
              [(world_a, options, deposit 6 "0xd26114cd6ee289accf82350c8d8487fedb8a0c07");
               (world_b, options, approveToken 77 1000)] (create 9) 1 0
              world_b world_a options options 77 1000 6
              "0xd26114cd6ee289accf82350c8d8487fedb8a0c07" eq_refl eq_refl)
    as (da & dd & sp & H1 & H2 & H3 & _ & H5 & _).
  - vm_compute. discriminate.
  - exists da, dd, sp. auto.
Defined.

(** *** The position of a deposit *)

(** X12. The position [getDepositExitData] computes for a deposit block,
    a product of two numbers, is the exact [blknum * 1000000000] for every
    block number up to 4611686018; for the next one, 4611686019, the
    product is 512 too large. *)
Theorem deposit_utxo_pos_exact (blknum : N) (Hb : blknum <= 4611686018) :
  deposit_utxo_pos blknum = blknum * 1000000000 /\
  deposit_utxo_pos 4611686019 = 4611686019 * 1000000000 + 512.
Proof.
  split; [|vm_compute; reflexivity].
  unfold deposit_utxo_pos.
  rewrite (JsNumberFacts.to_double_safe blknum)
    by (change (2 ^ 53) with 9007199254740992; lia).
  set (x := blknum * 1000000000).
  destruct (N.lt_ge_cases x (2 ^ 53)) as [Hs|Hl];
    [now apply JsNumberFacts.to_double_safe|].
  unfold JsNumber.to_double.
  destruct (N.ltb_spec x (2 ^ 53)) as [H|_]; [lia|]. cbv zeta.
  assert (0 < x) as Hpos by (change (2 ^ 53) with 9007199254740992 in Hl; lia).
  assert (53 <= N.log2 x) as Hlo by (apply N.log2_le_pow2; assumption).
  assert (N.log2 x < 62) as Hhi.
  { apply N.log2_lt_pow2; [assumption|].
    subst x. change (2 ^ 62) with 4611686018427387904. lia. }
  set (e := N.log2 x - 52).
  assert (x = blknum * 1953125 * 2 ^ (9 - e) * 2 ^ e) as Hx.
  { rewrite <- N.mul_assoc, <- N.pow_add_r.
    replace (9 - e + e) with 9 by lia. subst x. change (2 ^ 9) with 512. lia. }
  assert (2 ^ e <> 0) as He by (apply N.pow_nonzero; lia).
  assert (x mod 2 ^ e = 0) as Hr by (rewrite Hx; apply N.Div0.mod_mul).
  assert (x / 2 ^ e * 2 ^ e = x) as Hq.
  { pose proof (N.div_mod' x (2 ^ e)). lia. }
  rewrite Hr.
  assert (0 < 2 ^ (e - 1)) as Hhalf by (apply N.neq_0_lt_0, N.pow_nonzero; lia).
  apply N.ltb_lt in Hhalf. rewrite Hhalf. exact Hq.
Qed.

Lemma deposit_utxo_pos_exact_witness :
  deposit_utxo_pos 19774001 = 19774001000000000.
Proof.
  rewrite (proj1 (deposit_utxo_pos_exact 19774001 ltac:(vm_compute; discriminate))).
  reflexivity.
Defined.

End RootChainFacts.

(** ** More on merging UTXOs *)
Module MergeMore.
Import Merge MergeFacts.
Local Open Scope Z_scope.

Section Order.
Context {Amount E : Type} (numberToBN : Amount -> E + Z).

Lemma total_permutation (l l' : list (Utxo Amount)) :
  Permutation l l' -> total numberToBN l = total numberToBN l'.
Proof.
  unfold total. induction 1; simpl; lia.
Qed.

Lemma mixed_permutation {K} (f : Utxo Amount -> K) l l' :
  Permutation l l' -> mixed f l -> mixed f l'.
Proof.
  intros Hp (u & v & Hu & Hv & Huv). exists u, v.
  split; [|split]; auto; eapply Permutation_in; eauto.
Qed.

Lemma not_mixed_permutation {K} (f : Utxo Amount -> K) l l' :
  Permutation l l' -> ~ mixed f l -> ~ mixed f l'.
Proof.
  intros Hp Hn Hm. apply Hn. eapply mixed_permutation; [symmetry|]; eauto.
Qed.

Lemma merge_permutation_ok l l' out :
  Permutation l l' ->
  mergeUtxosToOutput numberToBN l = inr out ->
  mergeUtxosToOutput numberToBN l' = inr out.
Proof.
  intros Hp Hok. apply merge_succeeds_iff in Hok
    as (Hlen & Hc & Ho & Hall & u0 & rest & -> & ->).
  apply merge_succeeds_iff.
  rewrite <- (Permutation_length Hp).
  split; [exact Hlen|].
  split; [exact (not_mixed_permutation currency _ _ Hp Hc)|].
  split; [exact (not_mixed_permutation owner _ _ Hp Ho)|].
  split; [exact (Permutation_Forall Hp Hall)|].
  destruct l' as [|u0' rest'].
  { apply Permutation_length in Hp. discriminate. }
  exists u0', rest'. split; [reflexivity|].
  assert (In u0' (u0 :: rest)) as Hin
    by (eapply Permutation_in; [symmetry; exact Hp | now left]).
  rewrite (not_mixed_head owner u0 rest u0' Ho Hin).
  rewrite (not_mixed_head currency u0 rest u0' Hc Hin).
  now rewrite (total_permutation _ _ Hp).
Qed.

Lemma merge_permutation_error l l' msg :
  Permutation l l' ->
  mergeUtxosToOutput numberToBN l = inl (Error msg) ->
  mergeUtxosToOutput numberToBN l' = inl (Error msg).
Proof.
  intros Hp Herr. apply merge_error_iff in Herr. apply merge_error_iff.
  rewrite <- (Permutation_length Hp).
  destruct Herr as [H|[H|[(Hlen & Hm & Hmsg)|(Hlen & Hc & Hm & Hmsg)]]]; auto.
  - right. right. left. split; [exact Hlen|]. split; [|exact Hmsg].
    exact (mixed_permutation currency _ _ Hp Hm).
  - right. right. right. split; [exact Hlen|].
    split; [exact (not_mixed_permutation currency _ _ Hp Hc)|].
    split; [|exact Hmsg]. exact (mixed_permutation owner _ _ Hp Hm).
Qed.

Lemma merge_permutation_thrown l l' :
  Permutation l l' ->
  (exists e, mergeUtxosToOutput numberToBN l = inl (Thrown e)) ->
  exists e, mergeUtxosToOutput numberToBN l' = inl (Thrown e).
Proof.
  intros Hp Ht. apply merge_thrown_iff in Ht as (Hlen & Hc & Ho & Hex).
  apply merge_thrown_iff. rewrite <- (Permutation_length Hp).
  split; [exact Hlen|].
  split; [exact (not_mixed_permutation currency _ _ Hp Hc)|].
  split; [exact (not_mixed_permutation owner _ _ Hp Ho)|].
  apply Exists_exists in Hex as (u & Hu & Hr). apply Exists_exists.
  exists u. split; [eapply Permutation_in; eauto | exact Hr].
Qed.

End Order.

(** X13. The merge does not depend on the order of the UTXOs: a list and
    any rearrangement of it either both throw or both give the same
    output. An error of the merge itself is the same for both, and the
    error of a conversion is thrown for both or for neither. *)
Theorem mergeUtxosToOutput_order {Amount E : Type} (numberToBN : Amount -> E + Z)
  (utxos utxos' : list (Utxo Amount))
  (Hperm : Permutation utxos utxos') :
  (throws (mergeUtxosToOutput numberToBN utxos) <->
   throws (mergeUtxosToOutput numberToBN utxos')) /\
  (forall out,
      mergeUtxosToOutput numberToBN utxos = inr out <->
      mergeUtxosToOutput numberToBN utxos' = inr out) /\
  (forall msg,
      mergeUtxosToOutput numberToBN utxos = inl (Error msg) <->
      mergeUtxosToOutput numberToBN utxos' = inl (Error msg)) /\
  ((exists e, mergeUtxosToOutput numberToBN utxos = inl (Thrown e)) <->
   (exists e, mergeUtxosToOutput numberToBN utxos' = inl (Thrown e))).
Proof.
  assert (Permutation utxos' utxos) as Hperm' by (symmetry; exact Hperm).
  assert (forall out,
             mergeUtxosToOutput numberToBN utxos = inr out <->
             mergeUtxosToOutput numberToBN utxos' = inr out) as Hsame.
  { intros out. split; apply merge_permutation_ok; assumption. }
  split; [|split; [exact Hsame|split]].
  - unfold throws. split.
    + intros [e He].
      destruct (mergeUtxosToOutput numberToBN utxos') as [e'|out] eqn:Em; [eauto|].
      pose proof (merge_permutation_ok numberToBN _ _ _ Hperm' Em). congruence.
    + intros [e He].
      destruct (mergeUtxosToOutput numberToBN utxos) as [e'|out] eqn:Em; [eauto|].
      pose proof (merge_permutation_ok numberToBN _ _ _ Hperm Em). congruence.
  - intros msg. split; apply merge_permutation_error; assumption.
  - split; apply merge_permutation_thrown; assumption.
Qed.

Lemma mergeUtxosToOutput_order_witness :
  mergeUtxosToOutput number_to_bn
    [mkUtxo "0xa" "0x0" (BigNumber 32); mkUtxo "0xa" "0x0" (Integer 10)] =
    inr (mkOutput 1 "0xa" "0x0" 42).
Proof.
  apply (proj1 (proj2 (mergeUtxosToOutput_order number_to_bn
                  [mkUtxo "0xa" "0x0" (Integer 10); mkUtxo "0xa" "0x0" (BigNumber 32)]
                  [mkUtxo "0xa" "0x0" (BigNumber 32); mkUtxo "0xa" "0x0" (Integer 10)]
                  (perm_swap _ _ _)))).
  vm_compute. reflexivity.
Defined.

End MergeMore.
